(** * Firmware validation of the secure bootloader (bl_validation.c)

    A shallow embedding of [subsys/bootloader/bl_validation/bl_validation.c]:
    the monotonic version adapter, the region predicates, the scan for the
    validation info, the key-scanning signature check and the validation
    pipeline, followed by the properties proved about them.

    Conventions.
    - C integers are [Z]; a [u32_t] or [u16_t] result that can leave its range
      is wrapped with [u32] or [u16] where the C expression wraps.
    - Memory is a total map from addresses to bytes, read little-endian.
    - The key and counter storage ([bl_storage.h]), the crypto library
      ([bl_crypto.h]) and the firmware-info helpers ([fw_info.h]) are not
      part of this unit: they are the fields of the classes below, so every
      theorem holds for each implementation of them.
    - [printk]/[PRINT] append a line to the console held in the world.
    - The unit is embedded as it is built into the image that validates
      (the [#else] branch of [CONFIG_BL_VALIDATE_FW_EXT_API_UNUSED]). *)

From stdpp Require Import base list.
From Stdlib Require Import ZArith Lia Bool.

#[local] Open Scope Z_scope.

(** ** Machine integers *)

Definition u32 (x : Z) : Z := x mod 2 ^ 32.
Definition u16 (x : Z) : Z := x mod 2 ^ 16.

(** C's logical negation [!x] on an integer. *)
Definition lnot (x : Z) : Z := if x =? 0 then 1 else 0.

(** errno.h *)
Definition EFAULT : Z := 14.
Definition EINVAL : Z := 22.

(** bl_crypto.h *)
Definition EHASHINV : Z := 101.
Definition ESIGINV : Z := 102.

(** ** Memory *)

Definition memory : Type := Z -> Z.

Definition load8 (m : memory) (a : Z) : Z := m (u32 a) mod 256.

Definition load32 (m : memory) (a : Z) : Z :=
  Z.lor (load8 m a)
    (Z.lor (Z.shiftl (load8 m (a + 1)) 8)
       (Z.lor (Z.shiftl (load8 m (a + 2)) 16)
              (Z.shiftl (load8 m (a + 3)) 24))).

(** The bytes of a word array as they lie in memory. *)
Definition word_bytes (x : Z) : list Z :=
  [Z.land x 255; Z.land (Z.shiftr x 8) 255;
   Z.land (Z.shiftr x 16) 255; Z.land (Z.shiftr x 24) 255].

Definition words_bytes (ws : list Z) : list Z := concat (map word_bytes ws).

(** [memcmp(p, bs, length bs) == 0] *)
Fixpoint memcmp_eq (m : memory) (p : Z) (bs : list Z) : bool :=
  match bs with
  | [] => true
  | b :: bs' => (load8 m p =? b) && memcmp_eq m (p + 1) bs'
  end.

(** ** Region arithmetic *)

Definition within (addr start end_ : Z) : bool :=
  if start >? end_ then false
  else if addr <? start then false
  else if addr >=? end_ then false
  else true.

Definition region_within (inner_start inner_end start end_ : Z) : bool :=
  if inner_start >? inner_end then false
  else if negb (within inner_start start end_) then false
  else if negb (within inner_end start end_) then false
  else true.

(** ** Build configuration and declarations from other units

    [PM_S0_SIZE], [PM_S1_SIZE] come from the partition manager,
    [CONFIG_FW_INFO_VALID_VAL], [VALIDATION_INFO_MAGIC], [struct fw_info],
    [fw_info_check] and [fw_info_find] from [fw_info.h], [EHASHFF] from
    [bl_storage.h]; the [CONFIG_SB_*] lengths are Kconfig values.
    [struct fw_info] is given by the offsets of the fields that the
    validator reads. [fw_info_check] and [fw_info_find] return a pointer
    ([0] is [NULL]). [CONFIG_SB_VALIDATE_FW_SIGNATURE] selects
    [validate_signature]; otherwise [CONFIG_SB_VALIDATE_FW_HASH] is set. *)

Class bl_config : Type := {
  PM_S0_SIZE : Z;
  PM_S1_SIZE : Z;
  CONFIG_FW_INFO_VALID_VAL : Z;
  VALIDATION_INFO_MAGIC : list Z;
  CONFIG_SB_HASH_LEN : Z;
  CONFIG_SB_PUBLIC_KEY_LEN : Z;
  CONFIG_SB_PUBLIC_KEY_HASH_LEN : Z;
  CONFIG_SB_VALIDATE_FW_SIGNATURE : bool;
  EHASHFF : Z;
  offsetof_total_size : Z;
  offsetof_size : Z;
  offsetof_version : Z;
  offsetof_address : Z;
  offsetof_boot_address : Z;
  offsetof_valid : Z;
  fw_info_check : memory -> Z -> Z;
  fw_info_find : memory -> Z -> Z
}.

(** [OFFSET_CHECK(struct fw_validation_info, address, 12)]: the magic is
    [MAGIC_LEN_WORDS = 3] words, [CONFIG_FW_INFO_MAGIC_LEN = 12] bytes. *)
Definition CONFIG_FW_INFO_MAGIC_LEN : Z := 12.

(** ** The crypto library (bl_crypto.h)

    [bl_crypto_init] returns [0] on success. The root-of-trust check takes
    the memory, the address of the public key, the trusted key hash read
    from storage, the address of the signature, and the address and length
    of the firmware; it returns [0], [-EHASHINV], [-ESIGINV] or another
    error code. [bl_sha256_verify] takes the address and length of the data
    and the address of the expected digest. *)

Class bl_crypto : Type := {
  bl_crypto_init : Z;
  bl_root_of_trust_verify : memory -> Z -> list Z -> Z -> Z -> Z -> Z;
  bl_root_of_trust_verify_external : memory -> Z -> list Z -> Z -> Z -> Z -> Z;
  bl_sha256_verify : memory -> Z -> Z -> Z -> Z
}.

(** ** The key and counter storage (bl_storage.h)

    [public_key_data_read st idx] returns the return value and the contents
    of the buffer after the call. *)

Class bl_storage (S : Type) : Type := {
  num_public_keys_read : S -> Z;
  public_key_data_read : S -> Z -> Z * list Z;
  invalidate_public_key : Z -> S -> S;
  num_monotonic_counter_slots : S -> Z;
  get_monotonic_counter : S -> Z;
  set_monotonic_counter : Z -> S -> Z * S
}.

(** ** The console *)

Inductive console_line : Type :=
  | Setting_monotonic_counter (version slot : Z)
  | Monotonic_counter_disabled
  | Set_monotonic_counter_error (err : Z)
  | Crypto_init_returned (init_retval : Z)
  | Key_invalidated (key_data_idx : Z)
  | Key_is_FFFF
  | Key_read_failed (read_retval : Z)
  | Verifying_against_key (key_data_idx : Z)
  | Key_hash (first last : Z)
  | Invalidating_key (i : Z)
  | Validation_failed (retval : Z)
  | Signature_verified
  | Signature_not_validated
  | Hash_verified
  | Null_parameter
  | Invalid_info_format
  | Wrong_destination
  | Src_dst_differ
  | Info_not_self
  | Firmware_invalidated (valid : Z)
  | Version_too_small (version counter : Z)
  | Invalid_size
  | Info_not_in_region
  | Boot_address_not_in_region
  | Reset_handler_not_in_region
  | No_validation_info
  | Validation_info_mismatch.

Record world (S : Type) : Type := World {
  storage : S;
  console : list console_line
}.

Arguments World {S} _ _.
Arguments storage {S} _.
Arguments console {S} _.

Definition printk {S : Type} (l : console_line) (w : world S) : world S :=
  World (storage w) (console w ++ [l]).

(** [#define PRINT(...) if (!external) printk(__VA_ARGS__)] *)
Definition PRINT {S : Type} (external : bool) (l : console_line)
    (w : world S) : world S :=
  if external then w else printk l w.

Section Validation.

Context {S : Type} `{Cfg : bl_config} `{Crypto : bl_crypto}
  `{Storage : bl_storage S}.

(** ** Monotonic version

    [version] and [slot] are [u16_t] values. The two [__ASSERT]s
    ([version <= 0x7FFF], [slot <= 1]) do not change the result. *)

Definition set_monotonic_version (version slot : Z) (w : world S)
    : Z * world S :=
  let w := printk (Setting_monotonic_counter version slot) w in
  let '(err, st) :=
    set_monotonic_counter (Z.lor (Z.shiftl version 1) (lnot slot))
      (storage w) in
  let w := World st (console w) in
  let w :=
    if num_monotonic_counter_slots (storage w) =? 0
    then printk Monotonic_counter_disabled w
    else if negb (err =? 0) then printk (Set_monotonic_counter_error err) w
    else w in
  (err, w).

(** Returns the version and the value stored through [slot_out]; a caller
    that passes [NULL] uses the first component only. *)
Definition get_monotonic_version (st : S) : Z * Z :=
  let monotonic_version := u16 (get_monotonic_counter st) in
  (Z.shiftr monotonic_version 1, lnot (Z.land monotonic_version 1)).

(** ** The validation info *)

Definition offsetof_vinfo_address : Z := 12.
Definition offsetof_vinfo_hash : Z := 16.
Definition offsetof_vinfo_public_key : Z := 16 + CONFIG_SB_HASH_LEN.
Definition offsetof_vinfo_signature : Z :=
  16 + CONFIG_SB_HASH_LEN + CONFIG_SB_PUBLIC_KEY_LEN.

(** The function is declared [bool] and returns [vinfo] on a match: a match
    at address [0] converts to [false]. *)
Definition validation_info_check (m : memory) (vinfo : Z) : bool :=
  if memcmp_eq m vinfo
       (firstn (Z.to_nat CONFIG_FW_INFO_MAGIC_LEN)
          (words_bytes VALIDATION_INFO_MAGIC))
  then negb (vinfo =? 0)
  else false.

(** The loop of [validation_info_find], [count] iterations left at
    offset [i]. *)
Fixpoint validation_info_scan (m : memory) (start_address : Z)
    (count : nat) (i : Z) : Z :=
  match count with
  | O => 0
  | Datatypes.S count' =>
      let vinfo := u32 (start_address + i) in
      if validation_info_check m vinfo then vinfo
      else validation_info_scan m start_address count' (i + 1)
  end.

Definition validation_info_find (m : memory)
    (start_address search_distance : Z) : Z :=
  validation_info_scan m start_address
    (Datatypes.S (Z.to_nat search_distance)) 0.

(** ** Signature check *)

(** The inner loop [for (i = 0; i < key_data_idx; i++)], [count] iterations
    left at index [i]. *)
Fixpoint invalidate_keys (external : bool) (count : nat) (i : Z)
    (w : world S) : world S :=
  match count with
  | O => w
  | Datatypes.S count' =>
      let w := PRINT external (Invalidating_key i) w in
      let w := World (invalidate_public_key i (storage w)) (console w) in
      invalidate_keys external count' (i + 1) w
  end.

Definition rot_verify (external : bool)
    : memory -> Z -> list Z -> Z -> Z -> Z -> Z :=
  if external then bl_root_of_trust_verify_external
  else bl_root_of_trust_verify.

(** The key loop of [validate_signature], [count] iterations left at
    [key_data_idx]; it returns [retval], [validated] and the world at the
    exit of the loop. *)
Fixpoint key_scan (m : memory) (fw_src_address fw_size fw_val_info : Z)
    (external : bool) (count : nat) (key_data_idx : Z)
    (retval : Z) (validated : bool) (w : world S) : Z * bool * world S :=
  match count with
  | O => (retval, validated, w)
  | Datatypes.S count' =>
      let '(read_retval, key_data) :=
        public_key_data_read (storage w) key_data_idx in
      if read_retval <? 0 then
        if read_retval =? - EINVAL then
          let w := PRINT external (Key_invalidated key_data_idx) w in
          key_scan m fw_src_address fw_size fw_val_info external count'
            (key_data_idx + 1) (- EINVAL) validated w
        else if read_retval =? - EHASHFF then
          (- EHASHFF, validated, PRINT external Key_is_FFFF w)
        else
          (- EFAULT, validated,
           PRINT external (Key_read_failed read_retval) w)
      else
        let w := PRINT external (Verifying_against_key key_data_idx) w in
        let w :=
          PRINT external
            (Key_hash (nth 0 key_data 0)
               (nth (Z.to_nat (CONFIG_SB_PUBLIC_KEY_HASH_LEN - 1))
                  key_data 0)) w in
        let retval :=
          rot_verify external m (fw_val_info + offsetof_vinfo_public_key)
            key_data (fw_val_info + offsetof_vinfo_signature)
            fw_src_address fw_size in
        let '(validated, w) :=
          if retval =? 0
          then (true, invalidate_keys external (Z.to_nat key_data_idx) 0 w)
          else (validated, w) in
        if negb (retval =? - EHASHINV) then (retval, validated, w)
        else
          key_scan m fw_src_address fw_size fw_val_info external count'
            (key_data_idx + 1) retval validated w
  end.

Definition validate_signature (m : memory)
    (fw_src_address fw_size fw_val_info : Z) (external : bool)
    (w : world S) : bool * world S :=
  let init_retval := bl_crypto_init in
  if negb (init_retval =? 0) then
    (false, PRINT external (Crypto_init_returned init_retval) w)
  else
    let num_public_keys := num_public_keys_read (storage w) in
    let '(retval, validated, w) :=
      key_scan m fw_src_address fw_size fw_val_info external
        (Z.to_nat num_public_keys) 0 (- EINVAL) false w in
    if negb (retval =? 0) then
      (false, PRINT external (Validation_failed retval) w)
    else if validated then (validated, PRINT external Signature_verified w)
    else (validated, PRINT external Signature_not_validated w).

(** ** Hash check *)

Definition validate_hash (m : memory)
    (fw_src_address fw_size fw_val_info : Z) (external : bool)
    (w : world S) : bool * world S :=
  let retval := bl_crypto_init in
  if negb (retval =? 0) then
    (false, PRINT external (Crypto_init_returned retval) w)
  else
    let retval :=
      bl_sha256_verify m fw_src_address fw_size
        (fw_val_info + offsetof_vinfo_hash) in
    if negb (retval =? 0) then
      (false, PRINT external (Validation_failed retval) w)
    else (true, PRINT external Hash_verified w).

(** The [#ifdef] at the end of [validate_firmware]. *)
Definition verify_firmware (m : memory)
    (fw_src_address fw_size fw_val_info : Z) (external : bool)
    (w : world S) : bool * world S :=
  if CONFIG_SB_VALIDATE_FW_SIGNATURE
  then validate_signature m fw_src_address fw_size fw_val_info external w
  else validate_hash m fw_src_address fw_size fw_val_info external w.

(** ** The validation pipeline *)

(** [fwinfo->field] *)
Definition fwinfo_total_size (m : memory) (fwinfo : Z) : Z :=
  load32 m (fwinfo + offsetof_total_size).
Definition fwinfo_size (m : memory) (fwinfo : Z) : Z :=
  load32 m (fwinfo + offsetof_size).
Definition fwinfo_version (m : memory) (fwinfo : Z) : Z :=
  load32 m (fwinfo + offsetof_version).
Definition fwinfo_address (m : memory) (fwinfo : Z) : Z :=
  load32 m (fwinfo + offsetof_address).
Definition fwinfo_boot_address (m : memory) (fwinfo : Z) : Z :=
  load32 m (fwinfo + offsetof_boot_address).
Definition fwinfo_valid (m : memory) (fwinfo : Z) : Z :=
  load32 m (fwinfo + offsetof_valid).

Definition validate_firmware (m : memory)
    (fw_dst_address fw_src_address fwinfo : Z) (external : bool)
    (w : world S) : bool * world S :=
  if fwinfo =? 0 then (false, PRINT external Null_parameter w)
  else if fw_info_check m fwinfo =? 0 then
    (false, PRINT external Invalid_info_format w)
  else if negb (fw_dst_address =? fwinfo_address m fwinfo) then
    (false, PRINT external Wrong_destination w)
  else if negb external && negb (fw_src_address =? fw_dst_address) then
    (false, PRINT external Src_dst_differ w)
  else if negb (fw_info_find m fw_src_address =? fwinfo) then
    (false, PRINT external Info_not_self w)
  else if negb (fwinfo_valid m fwinfo =? CONFIG_FW_INFO_VALID_VAL) then
    (false, PRINT external (Firmware_invalidated (fwinfo_valid m fwinfo)) w)
  else if fwinfo_version m fwinfo
          <? fst (get_monotonic_version (storage w)) then
    (false,
     PRINT external
       (Version_too_small (fwinfo_version m fwinfo)
          (fst (get_monotonic_version (storage w)))) w)
  else if (fwinfo_size m fwinfo >? PM_S0_SIZE)
          || (fwinfo_size m fwinfo >? PM_S1_SIZE)
          || (fwinfo_total_size m fwinfo >? fwinfo_size m fwinfo) then
    (false, PRINT external Invalid_size w)
  else if negb (region_within fwinfo (u32 (fwinfo + fwinfo_total_size m fwinfo))
                  fw_src_address (u32 (fw_src_address + fwinfo_size m fwinfo)))
  then (false, PRINT external Info_not_in_region w)
  else if negb (within (fwinfo_boot_address m fwinfo) fw_dst_address
                  (u32 (fw_dst_address + fwinfo_size m fwinfo)))
  then (false, PRINT external Boot_address_not_in_region w)
  else if negb (within (load32 m (fwinfo_boot_address m fwinfo + 4))
                  fw_dst_address (u32 (fw_dst_address + fwinfo_size m fwinfo)))
  then (false, PRINT external Reset_handler_not_in_region w)
  else
    let fw_val_info :=
      validation_info_find m (u32 (fw_src_address + fwinfo_size m fwinfo)) 4 in
    if fw_val_info =? 0 then (false, PRINT external No_validation_info w)
    else if negb (load32 m (fw_val_info + offsetof_vinfo_address)
                  =? fwinfo_address m fwinfo)
    then (false, PRINT external Validation_info_mismatch w)
    else
      verify_firmware m fw_src_address (fwinfo_size m fwinfo) fw_val_info
        external w.

Definition bl_validate_firmware (m : memory)
    (fw_dst_address fw_src_address : Z) (w : world S) : bool * world S :=
  validate_firmware m fw_dst_address fw_src_address
    (fw_info_find m fw_src_address) true w.

Definition bl_validate_firmware_local (m : memory)
    (fw_address fwinfo : Z) (w : world S) : bool * world S :=
  validate_firmware m fw_address fw_address fwinfo false w.

End Validation.

(** ** The specification's reading of the code

    The definitions of this part follow the specification, not the code;
    the theorems compare them with the functions above. *)

Section Specification.

Context {S : Type} `{Cfg : bl_config} `{Crypto : bl_crypto}
  `{Storage : bl_storage S}.

(** Specification, section 4.6: the checks before the delegation to the
    trust verifier, each with the diagnostic of its failure. Check 1 has
    two parts (presence, magic). *)
Definition checks_before_rollback (m : memory)
    (fw_dst_address fw_src_address fwinfo : Z) (external : bool)
    : list (bool * console_line) :=
  [ (negb (fwinfo =? 0), Null_parameter);
    (negb (fw_info_check m fwinfo =? 0), Invalid_info_format);
    (fw_dst_address =? fwinfo_address m fwinfo, Wrong_destination);
    (external || (fw_src_address =? fw_dst_address), Src_dst_differ);
    (fw_info_find m fw_src_address =? fwinfo, Info_not_self);
    (fwinfo_valid m fwinfo =? CONFIG_FW_INFO_VALID_VAL,
     Firmware_invalidated (fwinfo_valid m fwinfo)) ].

Definition rollback_check (m : memory) (fwinfo : Z) (st : S)
    : bool * console_line :=
  (fst (get_monotonic_version st) <=? fwinfo_version m fwinfo,
   Version_too_small (fwinfo_version m fwinfo)
     (fst (get_monotonic_version st))).

Definition checks_after_rollback (m : memory)
    (fw_dst_address fw_src_address fwinfo : Z)
    : list (bool * console_line) :=
  let size := fwinfo_size m fwinfo in
  let vinfo := validation_info_find m (u32 (fw_src_address + size)) 4 in
  [ ((size <=? PM_S0_SIZE) && (size <=? PM_S1_SIZE)
       && (fwinfo_total_size m fwinfo <=? size), Invalid_size);
    (region_within fwinfo (u32 (fwinfo + fwinfo_total_size m fwinfo))
       fw_src_address (u32 (fw_src_address + size)), Info_not_in_region);
    (within (fwinfo_boot_address m fwinfo) fw_dst_address
       (u32 (fw_dst_address + size)), Boot_address_not_in_region);
    (within (load32 m (fwinfo_boot_address m fwinfo + 4)) fw_dst_address
       (u32 (fw_dst_address + size)), Reset_handler_not_in_region);
    (negb (vinfo =? 0), No_validation_info);
    (load32 m (vinfo + offsetof_vinfo_address) =? fwinfo_address m fwinfo,
     Validation_info_mismatch) ].

Definition checks (m : memory) (fw_dst_address fw_src_address fwinfo : Z)
    (external : bool) (st : S) : list (bool * console_line) :=
  checks_before_rollback m fw_dst_address fw_src_address fwinfo external
  ++ [rollback_check m fwinfo st]
  ++ checks_after_rollback m fw_dst_address fw_src_address fwinfo.

(** A check passes. *)
Definition passes (c : bool * console_line) : Prop := fst c = true.

(** Sequential short-circuit evaluation: the first failing check returns
    false at once and leaves its diagnostic; when all pass, the verdict is
    the verifier's. *)
Fixpoint run_checks (cs : list (bool * console_line)) (external : bool)
    (verify : world S -> bool * world S) (w : world S) : bool * world S :=
  match cs with
  | [] => verify w
  | (ok, line) :: cs' =>
      if ok then run_checks cs' external verify w
      else (false, PRINT external line w)
  end.

(** Check 13: the delegation, over [[src, src + size)]. *)
Definition delegate (m : memory) (fw_src_address fwinfo : Z)
    (external : bool) (w : world S) : bool * world S :=
  verify_firmware m fw_src_address (fwinfo_size m fwinfo)
    (validation_info_find m (u32 (fw_src_address + fwinfo_size m fwinfo)) 4)
    external w.

(** Specification, section 4.5: the outcome of one key slot. *)
Definition read_retval (st : S) (j : Z) : Z :=
  fst (public_key_data_read st j).

Definition rot_retval (m : memory) (fw_src_address fw_size fw_val_info : Z)
    (external : bool) (st : S) (j : Z) : Z :=
  rot_verify external m (fw_val_info + offsetof_vinfo_public_key)
    (snd (public_key_data_read st j))
    (fw_val_info + offsetof_vinfo_signature) fw_src_address fw_size.

Section Slot.

Variables (m : memory) (fw_src_address fw_size fw_val_info : Z)
  (external : bool) (st : S).

(** The read reports [Invalidated]. *)
Definition slot_invalidated (j : Z) : Prop := read_retval st j = - EINVAL.

(** The read reports the unsupported sentinel or another fault. *)
Definition slot_fault (j : Z) : Prop :=
  read_retval st j < 0 /\ read_retval st j <> - EINVAL.

(** The read succeeds and the root of trust reports a key-hash mismatch. *)
Definition slot_hash_mismatch (j : Z) : Prop :=
  0 <= read_retval st j
  /\ rot_retval m fw_src_address fw_size fw_val_info external st j
     = - EHASHINV.

(** The read succeeds and the root of trust accepts. *)
Definition slot_verifies (j : Z) : Prop :=
  0 <= read_retval st j
  /\ rot_retval m fw_src_address fw_size fw_val_info external st j = 0.

(** The read succeeds and the root of trust reports an invalid signature
    or any other error that is not a key-hash mismatch. *)
Definition slot_rejects (j : Z) : Prop :=
  0 <= read_retval st j
  /\ rot_retval m fw_src_address fw_size fw_val_info external st j <> 0
  /\ rot_retval m fw_src_address fw_size fw_val_info external st j
     <> - EHASHINV.

(** The scan goes on to the next slot. *)
Definition slot_passed_over (j : Z) : Prop :=
  slot_invalidated j \/ slot_hash_mismatch j.

(** The scan reaches slot [k]: every earlier slot was passed over. *)
Definition scan_reaches (k : Z) : Prop :=
  0 <= k < num_public_keys_read st
  /\ forall j, 0 <= j < k -> slot_passed_over j.

Definition verified_at (k : Z) : Prop := scan_reaches k /\ slot_verifies k.
Definition fault_at (k : Z) : Prop := scan_reaches k /\ slot_fault k.
Definition rejected_at (k : Z) : Prop := scan_reaches k /\ slot_rejects k.

(** No slot stops the scan: there is no key, or every key is invalidated
    or mismatched. *)
Definition keys_exhausted : Prop :=
  forall j, 0 <= j < num_public_keys_read st -> slot_passed_over j.

End Slot.

(** The two lines printed before the root-of-trust call. *)
Definition announce (external : bool) (key_data_idx : Z) (w : world S)
    : world S :=
  let key_data := snd (public_key_data_read (storage w) key_data_idx) in
  PRINT external
    (Key_hash (nth 0 key_data 0)
       (nth (Z.to_nat (CONFIG_SB_PUBLIC_KEY_HASH_LEN - 1)) key_data 0))
    (PRINT external (Verifying_against_key key_data_idx) w).

(** Every key slot with index strictly less than [key_index] invalidated,
    in ascending order. *)
Definition invalidate_below (key_index : Z) (st : S) : S :=
  fold_left (fun st i => invalidate_public_key i st)
    (map Z.of_nat (seq 0 (Z.to_nat key_index))) st.

(** The outcome of the scan of [count] slots from [i]: the result of the
    loop is one of a verification at a slot [k] reached by the scan, a stop
    at a slot that faults or rejects, and the exhaustion of the slots. *)
Section Outcome.

Variables (m : memory) (fw_src_address fw_size fw_val_info : Z)
  (external : bool) (st : S) (i : Z) (count : nat).

Definition passed_over_from (k : Z) : Prop :=
  forall j, i <= j < k ->
    slot_passed_over m fw_src_address fw_size fw_val_info external st j.

Inductive scan_outcome : Z * bool * world S -> Prop :=
  | Scan_verified k w' :
      i <= k < i + Z.of_nat count ->
      passed_over_from k ->
      slot_verifies m fw_src_address fw_size fw_val_info external st k ->
      storage w' = invalidate_below k st ->
      scan_outcome (0, true, w')
  | Scan_stopped k retval w' :
      i <= k < i + Z.of_nat count ->
      passed_over_from k ->
      slot_fault st k
      \/ slot_rejects m fw_src_address fw_size fw_val_info external st k ->
      retval <> 0 ->
      storage w' = st ->
      scan_outcome (retval, false, w')
  | Scan_exhausted retval w' :
      passed_over_from (i + Z.of_nat count) ->
      retval <> 0 ->
      storage w' = st ->
      scan_outcome (retval, false, w').

End Outcome.

(** Modelled from the spec: [bl_storage.c] is not part of this unit. The
    contract of the key store (sections 3 and 4.4): invalidating a
    provisioned slot makes its read report [Invalidated], and changes
    neither the read of another slot nor the number of slots. *)
Class key_storage_laws : Prop := {
  read_invalidated : forall st i,
    0 <= i < num_public_keys_read st ->
    fst (public_key_data_read (invalidate_public_key i st) i) = - EINVAL;
  read_other : forall st i j,
    i <> j ->
    public_key_data_read (invalidate_public_key i st) j
    = public_key_data_read st j;
  num_keys_invalidate : forall st i,
    num_public_keys_read (invalidate_public_key i st)
    = num_public_keys_read st
}.

(** Modelled from the spec: [bl_storage.c] is not part of this unit. The
    contract of the counter (sections 4.3 and 6): a 16-bit word whose write
    reported success is the word read afterwards. *)
Class counter_storage_laws : Prop := {
  counter_read_back : forall st st' v,
    0 <= v < 2 ^ 16 ->
    set_monotonic_counter v st = (0, st') ->
    get_monotonic_counter st' = v
}.

End Specification.

Arguments key_storage_laws S {Storage}.
Arguments counter_storage_laws S {Storage}.

(** ** A device, a crypto library and an image for the examples *)

Module Bench.

Definition ENOMEM : Z := 12.

(** Modelled from the spec: [bl_storage.c] is not part of this unit. The
    key store maps a slot index to a trusted key hash; a read reports
    [Invalidated] ([-EINVAL]) for an invalidated slot, else the status and
    hash provisioned in the slot, and a fault ([-EFAULT]) outside the
    store; invalidation is one-way and idempotent (sections 3, 4.4). The
    counter holds one word; a device with zero counter slots stores
    nothing and reports [-ENOMEM] (sections 4.3, 6). *)
Record key_slot : Type := Key_slot {
  slot_status : Z;
  slot_hash : list Z;
  slot_invalid : bool
}.

Record device : Type := Device {
  keys : list key_slot;
  counter_slots : Z;
  counter : Z
}.

Definition device_read (d : device) (idx : Z) : Z * list Z :=
  if idx <? 0 then (- EFAULT, [])
  else match keys d !! Z.to_nat idx with
       | None => (- EFAULT, [])
       | Some k =>
           if slot_invalid k then (- EINVAL, [])
           else (slot_status k, slot_hash k)
       end.

Definition device_invalidate (i : Z) (d : device) : device :=
  if i <? 0 then d
  else Device
         (alter (fun k => Key_slot (slot_status k) (slot_hash k) true)
            (Z.to_nat i) (keys d))
         (counter_slots d) (counter d).

Definition device_set_counter (v : Z) (d : device) : Z * device :=
  if counter_slots d =? 0 then (- ENOMEM, d)
  else (0, Device (keys d) (counter_slots d) (u16 v)).

#[export] Instance device_storage : bl_storage device := {
  num_public_keys_read d := Z.of_nat (length (keys d));
  public_key_data_read := device_read;
  invalidate_public_key := device_invalidate;
  num_monotonic_counter_slots := counter_slots;
  get_monotonic_counter := counter;
  set_monotonic_counter := device_set_counter
}.

(** A stand-in for the crypto library: the hash of a public key is its
    leading bytes, and a signature is the first word of the firmware
    xor-ed with the first word of the key. *)
Definition toy_root_of_trust_verify (m : memory)
    (public_key : Z) (public_key_hash : list Z) (signature : Z)
    (firmware firmware_len : Z) : Z :=
  if negb (memcmp_eq m public_key public_key_hash) then - EHASHINV
  else if negb (load32 m signature
                =? Z.lxor (load32 m firmware) (load32 m public_key))
  then - ESIGINV
  else 0.

Definition toy_sha256_verify (m : memory) (data data_len expected : Z) : Z :=
  if load32 m expected =? load32 m data then 0 else - EHASHINV.

#[export] Instance toy_crypto : bl_crypto := {
  bl_crypto_init := 0;
  bl_root_of_trust_verify := toy_root_of_trust_verify;
  bl_root_of_trust_verify_external := toy_root_of_trust_verify;
  bl_sha256_verify := toy_sha256_verify
}.

Definition FIRMWARE_INFO_MAGIC : list Z :=
  [0x281ee6de; 0x8fcebb4c; 0x00005b02].

Definition CONFIG_FW_INFO_OFFSET : Z := 0x200.

(** Modelled from the spec: [fw_info.h] is not part of this unit. The
    firmware info is accepted where its magic equals the expected
    constant, and is looked for at one fixed offset from the base address
    (section 4.1). *)
Definition bench_fw_info_check (m : memory) (fw_info_addr : Z) : Z :=
  if memcmp_eq m fw_info_addr (words_bytes FIRMWARE_INFO_MAGIC)
  then fw_info_addr else 0.

Definition bench_fw_info_find (m : memory) (firmware_address : Z) : Z :=
  bench_fw_info_check m (u32 (firmware_address + CONFIG_FW_INFO_OFFSET)).

#[export] Instance bench_config : bl_config := {
  PM_S0_SIZE := 0x8000;
  PM_S1_SIZE := 0x8000;
  CONFIG_FW_INFO_VALID_VAL := 0x9102FFFF;
  VALIDATION_INFO_MAGIC := [0x281ee6de; 0x86518483; 0x79106303];
  CONFIG_SB_HASH_LEN := 32;
  CONFIG_SB_PUBLIC_KEY_LEN := 64;
  CONFIG_SB_PUBLIC_KEY_HASH_LEN := 2;
  CONFIG_SB_VALIDATE_FW_SIGNATURE := true;
  EHASHFF := 113;
  offsetof_total_size := 12;
  offsetof_size := 16;
  offsetof_version := 20;
  offsetof_address := 24;
  offsetof_boot_address := 28;
  offsetof_valid := 32;
  fw_info_check := bench_fw_info_check;
  fw_info_find := bench_fw_info_find
}.

(** A memory holding the given words at the given addresses, zero
    elsewhere. *)
Definition mem_of_words (ws : list (Z * Z)) : memory :=
  fun a =>
    match find (fun e => (fst e <=? a) && (a <? fst e + 4)) ws with
    | Some e => nth (Z.to_nat (a - fst e)) (word_bytes (snd e)) 0
    | None => 0
    end.

(** An image of [0x400] bytes at [0x1000], version [version]: vector table
    at its start, firmware info at offset [0x200], validation info right
    after the image, signed with the key whose hash is [[0xAA; 0xBB]]. *)
Definition image (version : Z) : memory :=
  mem_of_words
    [ (0x1000, 0x20001000); (0x1004, 0x00001101);
      (0x1200, 0x281ee6de); (0x1204, 0x8fcebb4c); (0x1208, 0x00005b02);
      (0x120c, 0x3c); (0x1210, 0x400); (0x1214, version);
      (0x1218, 0x1000); (0x121c, 0x1000); (0x1220, 0x9102FFFF);
      (0x1400, 0x281ee6de); (0x1404, 0x86518483); (0x1408, 0x79106303);
      (0x140c, 0x1000);
      (0x1430, 0x0000BBAA);
      (0x1470, Z.lxor 0x20001000 0x0000BBAA) ].

(** An image of [0x1400] bytes at [0xFFFFF000]: its signed region ends past
    the top of the address space. *)
Definition wrapping_image : memory :=
  mem_of_words
    [ (0xFFFFF000, 0x20001000); (0xFFFFF004, 0xFFFFF101);
      (0xFFFFF200, 0x281ee6de); (0xFFFFF204, 0x8fcebb4c);
      (0xFFFFF208, 0x00005b02);
      (0xFFFFF20c, 0x3c); (0xFFFFF210, 0x1400); (0xFFFFF214, 5);
      (0xFFFFF218, 0xFFFFF000); (0xFFFFF21c, 0xFFFFF000);
      (0xFFFFF220, 0x9102FFFF);
      (0x400, 0x281ee6de); (0x404, 0x86518483); (0x408, 0x79106303);
      (0x40c, 0xFFFFF000);
      (0x430, 0x0000BBAA);
      (0x470, Z.lxor 0x20001000 0x0000BBAA) ].

Definition provisioned (hash : list Z) : key_slot := Key_slot 2 hash false.

(** Three keys; the image is signed with the second. The counter holds
    version 5, slot 0. *)
Definition board : device :=
  Device [provisioned [0x11; 0x22]; provisioned [0xAA; 0xBB];
          provisioned [0x33; 0x44]] 2 11.

(** The same keys on a device without counter slots. *)
Definition board_without_counter : device :=
  Device [provisioned [0x11; 0x22]; provisioned [0xAA; 0xBB];
          provisioned [0x33; 0x44]] 0 0.

(** The first key can be read but its slot is followed by one that holds
    the unsupported value. *)
Definition board_with_bad_slot : device :=
  Device [provisioned [0x11; 0x22]; Key_slot (- 113) [] false;
          provisioned [0xAA; 0xBB]] 2 11.

Definition power_on (d : device) : world device := World d [].

End Bench.

(** Closed goals on the bench are settled by evaluation. *)
Ltac evaluate :=
  vm_compute;
  match goal with
  | |- _ = _ => reflexivity
  | |- _ -> False => let H := fresh in intros H; discriminate H
  | |- _ /\ _ => split; [evaluate|evaluate]
  end.


(** ** fw_metadata.h

    The helpers of [fw_metadata.h]: the word-wise comparison [memeq_32],
    the lookup of the firmware info at its fixed offset and the scan for
    the validation info behind the firmware. [CONFIG_SB_MAGIC_LEN],
    [CONFIG_SB_FIRMWARE_INFO_OFFSET] and the two magic constants are
    Kconfig values. The magic arrays hold [MAGIC_LEN_WORDS] words. *)

Module FwMetadata.

Class sb_config : Type := {
  CONFIG_SB_MAGIC_LEN : Z;
  CONFIG_SB_FIRMWARE_INFO_OFFSET : Z;
  FIRMWARE_INFO_MAGIC : list Z;
  VALIDATION_INFO_MAGIC : list Z
}.

(** The loop of [memeq_32], [count] iterations left at index [i];
    [expected] is an address and [actual] the words of a local array. *)
Fixpoint memeq_32_loop (m : memory) (expected : Z) (actual : list Z)
    (count : nat) (i : Z) : bool :=
  match count with
  | O => true
  | Datatypes.S count' =>
      if negb (load32 m (expected + 4 * i) =? nth (Z.to_nat i) actual 0)
      then false
      else memeq_32_loop m expected actual count' (i + 1)
  end.

Definition memeq_32 (m : memory) (expected : Z) (actual : list Z)
    (len : Z) : bool :=
  memeq_32_loop m expected actual (Z.to_nat (len / 4)) 0.

Section Metadata.

Context `{Sb : sb_config}.

Definition MAGIC_LEN_WORDS : Z := CONFIG_SB_MAGIC_LEN / 4.

(** [struct fw_firmware_info] is packed: the fields follow the magic. *)
Definition firmware_size (m : memory) (finfo : Z) : Z :=
  load32 m (finfo + 4 * MAGIC_LEN_WORDS).
Definition firmware_version (m : memory) (finfo : Z) : Z :=
  load32 m (finfo + 4 * MAGIC_LEN_WORDS + 4).
Definition firmware_address (m : memory) (finfo : Z) : Z :=
  load32 m (finfo + 4 * MAGIC_LEN_WORDS + 8).

Definition firmware_info_get (m : memory) (firmware_address : Z) : Z :=
  let finfo_addr := u32 (firmware_address + CONFIG_SB_FIRMWARE_INFO_OFFSET) in
  if memeq_32 m finfo_addr FIRMWARE_INFO_MAGIC CONFIG_SB_MAGIC_LEN
  then finfo_addr
  else 0.

(** The loop of [validation_info_find], [count] iterations left at
    offset [i]. *)
Fixpoint validation_info_scan (m : memory) (vinfo_addr : Z)
    (count : nat) (i : Z) : Z :=
  match count with
  | O => 0
  | Datatypes.S count' =>
      let vinfo := u32 (vinfo_addr + i) in
      if memeq_32 m vinfo VALIDATION_INFO_MAGIC CONFIG_SB_MAGIC_LEN
      then vinfo
      else validation_info_scan m vinfo_addr count' (i + 1)
  end.

Definition validation_info_find (m : memory)
    (finfo search_distance : Z) : Z :=
  let vinfo_addr := u32 (firmware_address m finfo + firmware_size m finfo) in
  validation_info_scan m vinfo_addr
    (Datatypes.S (Z.to_nat search_distance)) 0.

End Metadata.

End FwMetadata.

(** ** Definitions for the properties of the whole unit *)

(** The bytes at [p] are the validation-info magic. *)
Definition has_validation_magic `{Cfg : bl_config} (m : memory) (p : Z)
    : Prop :=
  memcmp_eq m p
    (firstn (Z.to_nat CONFIG_FW_INFO_MAGIC_LEN)
       (words_bytes VALIDATION_INFO_MAGIC)) = true.

(** The words of a magic constant are 32-bit values. *)
Definition words32 (ws : list Z) : Prop :=
  Forall (fun x => 0 <= x < 2 ^ 32) ws.

(** [PRINT] of several lines in turn. *)
Definition PRINT_lines {S : Type} (external : bool)
    (lines : list console_line) (w : world S) : world S :=
  fold_left (fun w line => PRINT external line w) lines w.

(** The two entry points of the root of trust compute the same
    function. *)
Definition same_root_of_trust `{Crypto : bl_crypto} : Prop :=
  forall m public_key public_key_hash signature firmware firmware_len,
    bl_root_of_trust_verify_external m public_key public_key_hash signature
      firmware firmware_len
    = bl_root_of_trust_verify m public_key public_key_hash signature
        firmware firmware_len.

(** ** More of the bench *)

Module MoreBench.

Import Bench.

(** The configuration of [fw_metadata.h] with the magic of the bench. *)
#[export] Instance bench_sb_config : FwMetadata.sb_config := {
  FwMetadata.CONFIG_SB_MAGIC_LEN := 12;
  FwMetadata.CONFIG_SB_FIRMWARE_INFO_OFFSET := 0x200;
  FwMetadata.FIRMWARE_INFO_MAGIC := [0x281ee6de; 0x8fcebb4c; 0x00005b02];
  FwMetadata.VALIDATION_INFO_MAGIC := [0x281ee6de; 0x86518483; 0x79106303]
}.

(** A firmware of [0x100] bytes at [0x2000] with a [struct
    fw_firmware_info] at offset [0x200]; its validation info follows the
    firmware after two bytes of padding, at an odd halfword. *)
Definition metadata_image : memory :=
  mem_of_words
    [ (0x2200, 0x281ee6de); (0x2204, 0x8fcebb4c); (0x2208, 0x00005b02);
      (0x220c, 0x100); (0x2210, 7); (0x2214, 0x2000);
      (0x2102, 0x281ee6de); (0x2106, 0x86518483); (0x210a, 0x79106303);
      (0x210e, 0x2000) ].

(** The image of the bench with size zero in its firmware info. *)
Definition image_of_size_zero : memory :=
  mem_of_words
    [ (0x1000, 0x20001000); (0x1004, 0x00001101);
      (0x1200, 0x281ee6de); (0x1204, 0x8fcebb4c); (0x1208, 0x00005b02);
      (0x120c, 0); (0x1210, 0); (0x1214, 5);
      (0x1218, 0x1000); (0x121c, 0x1000); (0x1220, 0x9102FFFF) ].

(** A memory without any magic. *)
Definition blank : memory := mem_of_words [].

(** A board with every key invalidated. *)
Definition board_revoked : device :=
  Device [Key_slot 2 [0x11; 0x22] true; Key_slot 2 [0xAA; 0xBB] true] 2 11.

(** The board with a higher counter: version 6, slot 1. *)
Definition board_later : device :=
  Device [provisioned [0x11; 0x22]; provisioned [0xAA; 0xBB];
          provisioned [0x33; 0x44]] 2 12.

End MoreBench.


(** * Properties *)

(** ** Region predicates *)

Lemma within_true (addr start end_ : Z) :
  within addr start end_ = true <-> start <= end_ /\ start <= addr < end_.
Proof.
  unfold within.
  destruct (Z.gtb_spec start end_), (Z.ltb_spec addr start),
    (Z.geb_spec addr end_); split; intros; try discriminate; try lia; auto.
Qed.

(** C7. [within addr start end_] is true exactly when [start <= end_] and
    [start <= addr < end_]; it is false for every range with
    [start > end_], and the upper bound [end_] is never within. *)
Theorem within_spec (addr start end_ : Z) :
  (within addr start end_ = true <-> start <= end_ /\ start <= addr < end_)
  /\ (start > end_ -> within addr start end_ = false)
  /\ within end_ start end_ = false.
Proof.
  split; [apply within_true|]. split.
  - intros Hgt. destruct (within addr start end_) eqn:E; [|reflexivity].
    apply within_true in E. lia.
  - destruct (within end_ start end_) eqn:E; [|reflexivity].
    apply within_true in E. lia.
Qed.

Lemma within_spec_witness :
  within 5 0 10 = true /\ within 5 10 0 = false /\ within 10 0 10 = false.
Proof.
  destruct (within_spec 5 0 10) as (H1 & _ & H3).
  destruct (within_spec 5 10 0) as (_ & H2 & _).
  split; [apply H1; lia|]. split; [apply H2; lia|exact H3].
Defined.

(** C8. [region_within] is true exactly when [inner_start <= inner_end] and
    both inner endpoints are [within] the outer range; a zero-length inner
    region at a point of the outer range is accepted, and a zero-length
    inner region is accepted only at such a point. *)
Theorem region_within_spec (inner_start inner_end start end_ : Z) :
  (region_within inner_start inner_end start end_ = true <->
     inner_start <= inner_end
     /\ within inner_start start end_ = true
     /\ within inner_end start end_ = true)
  /\ (start <= inner_start < end_ ->
      region_within inner_start inner_start start end_ = true)
  /\ (region_within inner_start inner_start start end_ = true ->
      within inner_start start end_ = true).
Proof.
  assert (Hiff : forall a b,
    region_within a b start end_ = true <->
    a <= b /\ within a start end_ = true /\ within b start end_ = true).
  { intros a b. unfold region_within.
    destruct (Z.gtb_spec a b) as [Hgt|Hle].
    - split; [discriminate|]. intros (Hab & _). lia.
    - destruct (within a start end_); simpl.
      + destruct (within b start end_); simpl.
        * split; [intros _; auto|reflexivity].
        * split; [discriminate|]. intros (_ & _ & H). discriminate H.
      + split; [discriminate|]. intros (_ & H & _). discriminate H. }
  split; [apply Hiff|]. split.
  - intros Hin. apply Hiff.
    assert (within inner_start start end_ = true) by (apply within_true; lia).
    split; [lia|]. split; assumption.
  - intros H. apply Hiff in H. tauto.
Qed.

Lemma region_within_spec_witness :
  region_within 5 5 0 10 = true.
Proof.
  destruct (region_within_spec 5 5 0 10) as (_ & H & _).
  apply H. lia.
Defined.

(** ** The console and the storage *)

Lemma PRINT_storage {S : Type} (external : bool) (l : console_line)
    (w : world S) :
  storage (PRINT external l w) = storage w.
Proof. destruct external; reflexivity. Qed.

Lemma PRINT_console {S : Type} (external : bool) (l : console_line)
    (w : world S) :
  console (PRINT external l w)
  = console w ++ (if external then [] else [l]).
Proof. destruct external; simpl; [rewrite app_nil_r|]; reflexivity. Qed.

(** ** Sequential checks *)

Section RunChecks.

Context {S : Type}.
Variables (external : bool) (verify : world S -> bool * world S).

Lemma run_checks_all_pass (cs : list (bool * console_line)) (w : world S) :
  Forall passes cs -> run_checks cs external verify w = verify w.
Proof.
  induction 1 as [|[ok line] cs Hc _ IH]; simpl; [reflexivity|].
  unfold passes in Hc; simpl in Hc; subst ok. exact IH.
Qed.

Lemma run_checks_app_pass (pre cs : list (bool * console_line))
    (w : world S) :
  Forall passes pre ->
  run_checks (pre ++ cs) external verify w = run_checks cs external verify w.
Proof.
  induction 1 as [|[ok line] pre Hc _ IH]; simpl; [reflexivity|].
  unfold passes in Hc; simpl in Hc; subst ok. exact IH.
Qed.

Lemma run_checks_first_failure (pre post : list (bool * console_line))
    (c : bool * console_line) (w : world S) :
  Forall passes pre -> fst c = false ->
  run_checks (pre ++ c :: post) external verify w
  = (false, PRINT external (snd c) w).
Proof.
  intros Hpre Hc. rewrite run_checks_app_pass by exact Hpre.
  destruct c as [ok line]; simpl in *; subst ok. reflexivity.
Qed.

Lemma run_checks_failure_prefix (pre : list (bool * console_line))
    (c : bool * console_line) (w : world S) :
  In c pre -> fst c = false ->
  exists line, In line (map snd pre)
    /\ forall post,
         run_checks (pre ++ post) external verify w
         = (false, PRINT external line w).
Proof.
  induction pre as [|[ok line] pre IH]; simpl; [tauto|].
  intros [<-|Hin] Hc.
  - simpl in Hc; subst ok. exists line. auto.
  - destruct ok.
    + destruct (IH Hin Hc) as (l & Hl & Hrun). exists l. auto.
    + exists line. auto.
Qed.

Lemma run_checks_failure (cs : list (bool * console_line))
    (c : bool * console_line) (w : world S) :
  In c cs -> fst c = false ->
  exists line, In line (map snd cs)
    /\ run_checks cs external verify w = (false, PRINT external line w).
Proof.
  intros Hin Hc.
  destruct (run_checks_failure_prefix cs c w Hin Hc) as (line & Hl & Hrun).
  exists line. split; [exact Hl|].
  specialize (Hrun []). rewrite app_nil_r in Hrun. exact Hrun.
Qed.

Lemma run_checks_skip (pre post : list (bool * console_line))
    (c : bool * console_line) (w : world S) :
  fst c = true ->
  run_checks (pre ++ c :: post) external verify w
  = run_checks (pre ++ post) external verify w.
Proof.
  intros Hc. induction pre as [|[ok line] pre IH]; simpl.
  - destruct c as [ok line]; simpl in Hc; subst ok. reflexivity.
  - destruct ok; [exact IH|reflexivity].
Qed.

Lemma run_checks_true (cs : list (bool * console_line)) (w : world S) :
  fst (run_checks cs external verify w) = true <->
  Forall passes cs /\ fst (verify w) = true.
Proof.
  induction cs as [|[ok line] cs IH]; simpl.
  - split; [intros H; split; [constructor|exact H]|tauto].
  - destruct ok; simpl.
    + rewrite IH. split.
      * intros [Hcs Hv]. split; [constructor; [reflexivity|exact Hcs]|exact Hv].
      * intros [Hcs Hv]. inversion Hcs; subst. tauto.
    + split; [discriminate|].
      intros [Hcs _]. inversion Hcs as [|? ? Hc]; subst. discriminate Hc.
Qed.

End RunChecks.

(** ** The validation pipeline *)

Section Pipeline.

Context {S : Type} `{Cfg : bl_config} `{Crypto : bl_crypto}
  `{Storage : bl_storage S}.

Variables (m : memory) (fw_dst_address fw_src_address fwinfo : Z)
  (external : bool).

(** The code is the sequential evaluation of the checks of the
    specification, in their order. *)
Lemma validate_firmware_run_checks (w : world S) :
  validate_firmware m fw_dst_address fw_src_address fwinfo external w
  = run_checks
      (checks m fw_dst_address fw_src_address fwinfo external (storage w))
      external (delegate m fw_src_address fwinfo external) w.
Proof.
  unfold validate_firmware, checks, checks_before_rollback, rollback_check,
    checks_after_rollback, delegate.
  cbv zeta. cbn [app run_checks fst snd].
  rewrite !Z.gtb_ltb, !Z.ltb_antisym.
  repeat match goal with
    | |- context [?a =? ?b] =>
        destruct (a =? b); cbn [negb andb orb]; try reflexivity
    | |- context [?a <=? ?b] =>
        destruct (a <=? b); cbn [negb andb orb]; try reflexivity
    | |- context [if negb ?c then _ else _] =>
        destruct c; cbn [negb andb orb]; try reflexivity
    | |- context [if external || _ then _ else _] =>
        destruct external; cbn [negb andb orb]; try reflexivity
    end.
Qed.

Lemma rollback_check_le (st : S) :
  fst (rollback_check m fwinfo st) = true <->
  fst (get_monotonic_version st) <= fwinfo_version m fwinfo.
Proof. unfold rollback_check; simpl. apply Z.leb_le. Qed.

(** C1. [validate_firmware] is the sequential short-circuit evaluation of
    the checks of section 4.6 in their order (check 1 in its two parts,
    presence and magic), followed by the delegation to the verifier: the
    first check that fails returns false at once, with its diagnostic and
    nothing else done; a failing check anywhere gives false and leaves the
    storage as it was; and the result is true exactly when every check
    passes and the verifier accepts. *)
Theorem validate_firmware_checks (w : world S) :
  let cs :=
    checks m fw_dst_address fw_src_address fwinfo external (storage w) in
  let result :=
    validate_firmware m fw_dst_address fw_src_address fwinfo external w in
  result = run_checks cs external (delegate m fw_src_address fwinfo external) w
  /\ (forall pre c post,
        cs = pre ++ c :: post -> Forall passes pre -> fst c = false ->
        result = (false, PRINT external (snd c) w))
  /\ (forall c, In c cs -> fst c = false ->
      fst result = false /\ storage (snd result) = storage w)
  /\ (fst result = true <->
      Forall passes cs
      /\ fst (delegate m fw_src_address fwinfo external w) = true).
Proof.
  intros cs result. subst result.
  rewrite validate_firmware_run_checks. fold cs.
  split; [reflexivity|]. split; [|split].
  - intros pre c post -> Hpre Hc. apply run_checks_first_failure; assumption.
  - intros c Hin Hc.
    destruct (run_checks_failure external
                (delegate m fw_src_address fwinfo external) cs c w Hin Hc)
      as (line & _ & ->).
    simpl. rewrite PRINT_storage. split; reflexivity.
  - apply run_checks_true.
Qed.

(** C4. An image whose version is below the stored monotonic version is
    rejected by one of the checks up to the rollback check: the result is
    false, the storage is unchanged and the only effect is the diagnostic
    of that check, so the verifier is not reached. An image whose version
    is at least the stored version passes the rollback check: the pipeline
    then decides as if that check were absent. *)
Theorem rollback_check_spec (w : world S) :
  let stored := fst (get_monotonic_version (storage w)) in
  let result :=
    validate_firmware m fw_dst_address fw_src_address fwinfo external w in
  (fwinfo_version m fwinfo < stored ->
     fst result = false
     /\ storage (snd result) = storage w
     /\ exists line,
          In line
            (map snd
               (checks_before_rollback m fw_dst_address fw_src_address
                  fwinfo external
                ++ [rollback_check m fwinfo (storage w)]))
          /\ result = (false, PRINT external line w))
  /\ (stored <= fwinfo_version m fwinfo ->
      result
      = run_checks
          (checks_before_rollback m fw_dst_address fw_src_address fwinfo
             external
           ++ checks_after_rollback m fw_dst_address fw_src_address fwinfo)
          external (delegate m fw_src_address fwinfo external) w).
Proof.
  intros stored result. subst result stored.
  rewrite validate_firmware_run_checks. unfold checks. split.
  - intros Hlt. rewrite app_assoc.
    destruct (run_checks_failure_prefix external
                (delegate m fw_src_address fwinfo external)
                (checks_before_rollback m fw_dst_address fw_src_address
                   fwinfo external
                 ++ [rollback_check m fwinfo (storage w)])
                (rollback_check m fwinfo (storage w)) w)
      as (line & Hline & Hrun).
    + apply in_or_app. right. left. reflexivity.
    + destruct (fst (rollback_check m fwinfo (storage w))) eqn:E;
        [|reflexivity].
      apply rollback_check_le in E. lia.
    + rewrite Hrun. simpl. rewrite PRINT_storage.
      split; [reflexivity|]. split; [reflexivity|].
      exists line. split; [exact Hline|reflexivity].
  - intros Hle. apply run_checks_skip. apply rollback_check_le. exact Hle.
Qed.

(** The signed region wraps: its end precedes its start. *)
Lemma wrapped_region_not_within (a start end_ : Z) :
  end_ < start -> within a start end_ = false.
Proof.
  intros H. destruct (within a start end_) eqn:E; [|reflexivity].
  apply within_true in E. lia.
Qed.

(** C10. When the end of the signed region, [fw_src_address + size]
    computed modulo [2^32], is below [fw_src_address], [validate_firmware]
    returns false and the storage is unchanged. *)
Theorem wrapped_image_rejected (w : world S) :
  u32 (fw_src_address + fwinfo_size m fwinfo) < fw_src_address ->
  fst (validate_firmware m fw_dst_address fw_src_address fwinfo external w)
  = false
  /\ storage
       (snd (validate_firmware m fw_dst_address fw_src_address fwinfo
               external w))
     = storage w.
Proof.
  intros Hwrap. rewrite validate_firmware_run_checks.
  destruct (run_checks_failure external
              (delegate m fw_src_address fwinfo external)
              (checks m fw_dst_address fw_src_address fwinfo external
                 (storage w))
              (region_within fwinfo (u32 (fwinfo + fwinfo_total_size m fwinfo))
                 fw_src_address (u32 (fw_src_address + fwinfo_size m fwinfo)),
               Info_not_in_region) w)
    as (line & _ & ->).
  - unfold checks, checks_after_rollback. cbv zeta.
    apply in_or_app. right. apply in_or_app. right.
    right. left. reflexivity.
  - simpl. unfold region_within.
    rewrite (wrapped_region_not_within fwinfo) by exact Hwrap.
    destruct (fwinfo >? _); reflexivity.
  - simpl. rewrite PRINT_storage. split; reflexivity.
Qed.

End Pipeline.

(** ** The key scan and [validate_signature] *)

Section KeyScan.

Context {S : Type} `{Cfg : bl_config} `{Crypto : bl_crypto}
  `{Storage : bl_storage S}.

Variables (m : memory) (fw_src_address fw_size fw_val_info : Z)
  (external : bool).

#[local] Abbreviation scan :=
  (key_scan m fw_src_address fw_size fw_val_info external).
#[local] Abbreviation validate :=
  (validate_signature m fw_src_address fw_size fw_val_info external).
#[local] Abbreviation rot :=
  (rot_retval m fw_src_address fw_size fw_val_info external).
#[local] Abbreviation mismatch :=
  (slot_hash_mismatch m fw_src_address fw_size fw_val_info external).
#[local] Abbreviation verifies :=
  (slot_verifies m fw_src_address fw_size fw_val_info external).
#[local] Abbreviation rejects :=
  (slot_rejects m fw_src_address fw_size fw_val_info external).
#[local] Abbreviation passed_over :=
  (slot_passed_over m fw_src_address fw_size fw_val_info external).
#[local] Abbreviation reaches :=
  (scan_reaches m fw_src_address fw_size fw_val_info external).
#[local] Abbreviation verified :=
  (verified_at m fw_src_address fw_size fw_val_info external).
#[local] Abbreviation fault :=
  (fault_at m fw_src_address fw_size fw_val_info external).
#[local] Abbreviation rejected :=
  (rejected_at m fw_src_address fw_size fw_val_info external).
#[local] Abbreviation exhausted :=
  (keys_exhausted m fw_src_address fw_size fw_val_info external).
#[local] Abbreviation announce := (announce external).
#[local] Abbreviation scan_outcome :=
  (scan_outcome m fw_src_address fw_size fw_val_info external).
#[local] Abbreviation invalidate_all :=
  (fold_left (fun st i => invalidate_public_key i st)).

Lemma announce_storage (i : Z) (w : world S) :
  storage (announce i w) = storage w.
Proof. unfold announce. rewrite !PRINT_storage. reflexivity. Qed.

Lemma invalidate_keys_storage (count : nat) (i : Z) (w : world S) :
  storage (invalidate_keys external count i w)
  = fold_left (fun st j => invalidate_public_key j st)
      (map (fun d => i + Z.of_nat d) (seq 0 count)) (storage w).
Proof.
  revert i w. induction count as [|count IH]; intros i w; [reflexivity|].
  cbn [invalidate_keys seq map fold_left]. rewrite IH. cbn [storage].
  rewrite PRINT_storage, Z.add_0_r, <- seq_shift, map_map.
  f_equal. apply map_ext. intros d. lia.
Qed.

Lemma invalidate_keys_below (k : Z) (w : world S) :
  storage (invalidate_keys external (Z.to_nat k) 0 w)
  = invalidate_below k (storage w).
Proof. apply invalidate_keys_storage. Qed.

(** One iteration, by the outcome of the slot. *)

Lemma key_scan_invalidated (count : nat) (i retval : Z) (validated : bool)
    (w : world S) :
  slot_invalidated (storage w) i ->
  scan (Datatypes.S count) i retval validated w
  = scan count (i + 1) (- EINVAL) validated
      (PRINT external (Key_invalidated i) w).
Proof.
  unfold slot_invalidated, read_retval. cbn [key_scan].
  destruct (public_key_data_read (storage w) i) as [rr kd]; simpl.
  intros ->. reflexivity.
Qed.

Lemma key_scan_fault (count : nat) (i retval : Z) (validated : bool)
    (w : world S) :
  slot_fault (storage w) i ->
  scan (Datatypes.S count) i retval validated w
  = if read_retval (storage w) i =? - EHASHFF
    then (- EHASHFF, validated, PRINT external Key_is_FFFF w)
    else (- EFAULT, validated,
          PRINT external (Key_read_failed (read_retval (storage w) i)) w).
Proof.
  unfold slot_fault, read_retval. cbn [key_scan].
  destruct (public_key_data_read (storage w) i) as [rr kd]; simpl.
  intros [Hneg Hne].
  destruct (Z.ltb_spec rr 0); [|lia].
  destruct (Z.eqb_spec rr (- EINVAL)); [contradiction|]. reflexivity.
Qed.

Lemma key_scan_mismatch (count : nat) (i retval : Z) (validated : bool)
    (w : world S) :
  mismatch (storage w) i ->
  scan (Datatypes.S count) i retval validated w
  = scan count (i + 1) (- EHASHINV) validated (announce i w).
Proof.
  unfold slot_hash_mismatch, rot_retval, read_retval, announce.
  cbn [key_scan].
  destruct (public_key_data_read (storage w) i) as [rr kd]; simpl.
  intros [Hok ->].
  destruct (Z.ltb_spec rr 0); [lia|]. reflexivity.
Qed.

Lemma key_scan_verifies (count : nat) (i retval : Z) (validated : bool)
    (w : world S) :
  verifies (storage w) i ->
  scan (Datatypes.S count) i retval validated w
  = (0, true, invalidate_keys external (Z.to_nat i) 0 (announce i w)).
Proof.
  unfold slot_verifies, rot_retval, read_retval, announce.
  cbn [key_scan].
  destruct (public_key_data_read (storage w) i) as [rr kd]; simpl.
  intros [Hok ->].
  destruct (Z.ltb_spec rr 0); [lia|]. reflexivity.
Qed.

Lemma key_scan_rejects (count : nat) (i retval : Z) (validated : bool)
    (w : world S) :
  rejects (storage w) i ->
  scan (Datatypes.S count) i retval validated w
  = (rot (storage w) i, validated, announce i w).
Proof.
  unfold slot_rejects, rot_retval, read_retval, announce.
  cbn [key_scan].
  destruct (public_key_data_read (storage w) i) as [rr kd]; simpl.
  intros (Hok & Hnz & Hnm).
  destruct (Z.ltb_spec rr 0); [lia|].
  match goal with |- context [?r =? 0] => destruct (Z.eqb_spec r 0) end;
    [contradiction|].
  match goal with |- context [?r =? - EHASHINV] =>
    destruct (Z.eqb_spec r (- EHASHINV)) end; [contradiction|].
  reflexivity.
Qed.

(** Every slot has one of the five outcomes. *)
Lemma slot_outcome (st : S) (j : Z) :
  slot_invalidated st j \/ slot_fault st j \/ mismatch st j
  \/ verifies st j \/ rejects st j.
Proof.
  unfold slot_invalidated, slot_fault, slot_hash_mismatch, slot_verifies,
    slot_rejects.
  destruct (Z.eq_dec (read_retval st j) (- EINVAL)); [tauto|].
  destruct (Z_lt_dec (read_retval st j) 0); [tauto|].
  destruct (Z.eq_dec (rot st j) 0); [right; right; right; left; lia|].
  destruct (Z.eq_dec (rot st j) (- EHASHINV)).
  - right; right; left; lia.
  - right; right; right; right; lia.
Qed.

Lemma passed_over_not_stopping (st : S) (j : Z) :
  passed_over st j ->
  ~ (slot_fault st j \/ verifies st j \/ rejects st j).
Proof.
  unfold slot_passed_over, slot_invalidated, slot_fault,
    slot_hash_mismatch, slot_verifies, slot_rejects, EINVAL, EHASHINV.
  intros [H|[H1 H2]]; lia.
Qed.

(** The scan stops at one slot at most. *)
Lemma stopping_slot_unique (st : S) (k k' : Z) :
  reaches st k -> reaches st k' ->
  slot_fault st k \/ verifies st k \/ rejects st k ->
  slot_fault st k' \/ verifies st k' \/ rejects st k' ->
  k = k'.
Proof.
  intros [Hk Hpre] [Hk' Hpre'] Hstop Hstop'.
  destruct (Z.lt_trichotomy k k') as [Hlt|[Heq|Hgt]]; [|exact Heq|].
  - exfalso. apply (passed_over_not_stopping st k); [|exact Hstop].
    apply Hpre'. lia.
  - exfalso. apply (passed_over_not_stopping st k'); [|exact Hstop'].
    apply Hpre. lia.
Qed.

Lemma scan_outcome_later (st : S) (i : Z) (count : nat)
    (r : Z * bool * world S) :
  passed_over st i ->
  scan_outcome st (i + 1) count r ->
  scan_outcome st i (Datatypes.S count) r.
Proof.
  intros Hi Hr.
  assert (Hpre : forall k, (forall j, i + 1 <= j < k -> passed_over st j) ->
                           forall j, i <= j < k -> passed_over st j).
  { intros k H j Hj. destruct (Z.eq_dec j i) as [->|]; [exact Hi|].
    apply H. lia. }
  destruct Hr as [k w' Hk Hp Hv Hs|k rv w' Hk Hp Hf Hrv Hs|rv w' Hp Hrv Hs].
  - apply Scan_verified with k; [lia|exact (Hpre k Hp)|exact Hv|exact Hs].
  - apply Scan_stopped with k;
      [lia|exact (Hpre k Hp)|exact Hf|exact Hrv|exact Hs].
  - apply Scan_exhausted; [|exact Hrv|exact Hs].
    intros j Hj. apply (Hpre (i + 1 + Z.of_nat count) Hp). lia.
Qed.

Lemma key_scan_outcome (count : nat) :
  forall (i retval : Z) (w : world S),
    0 <= i -> retval <> 0 ->
    scan_outcome (storage w) i count (scan count i retval false w).
Proof.
  induction count as [|count IH]; intros i retval w Hi Hrv.
  - apply Scan_exhausted; [intros j Hj; lia|exact Hrv|reflexivity].
  - destruct (slot_outcome (storage w) i) as [H|[H|[H|[H|H]]]].
    + rewrite key_scan_invalidated by exact H.
      apply scan_outcome_later; [left; exact H|].
      rewrite <- (PRINT_storage external (Key_invalidated i) w) at 1.
      apply IH; [lia|discriminate].
    + rewrite key_scan_fault by exact H.
      destruct H as [Hneg Hne].
      destruct (Z.eqb_spec (read_retval (storage w) i) (- EHASHFF)) as [E|E].
      * apply Scan_stopped with i;
          [lia|intros j Hj; lia|left; split; assumption|lia
          |apply PRINT_storage].
      * apply Scan_stopped with i;
          [lia|intros j Hj; lia|left; split; assumption|discriminate
          |apply PRINT_storage].
    + rewrite key_scan_mismatch by exact H.
      apply scan_outcome_later; [right; exact H|].
      rewrite <- (announce_storage i w) at 1.
      apply IH; [lia|discriminate].
    + rewrite key_scan_verifies by exact H.
      apply Scan_verified with i; [lia|intros j Hj; lia|exact H|].
      rewrite invalidate_keys_below, announce_storage. reflexivity.
    + rewrite key_scan_rejects by exact H.
      apply Scan_stopped with i;
        [lia|intros j Hj; lia|right; exact H|apply H|apply announce_storage].
Qed.

Lemma validate_signature_init_failure (w : world S) :
  bl_crypto_init <> 0 ->
  validate w = (false, PRINT external (Crypto_init_returned bl_crypto_init) w).
Proof.
  intros H. unfold validate_signature.
  destruct (Z.eqb_spec bl_crypto_init 0); [contradiction|reflexivity].
Qed.

(** The three ways in which an initialised [validate_signature] ends. *)
Lemma validate_signature_outcome (w : world S) :
  bl_crypto_init = 0 ->
  (exists k, verified (storage w) k
     /\ fst (validate w) = true
     /\ storage (snd (validate w)) = invalidate_below k (storage w))
  \/ (fst (validate w) = false
      /\ storage (snd (validate w)) = storage w
      /\ ((exists k, fault (storage w) k \/ rejected (storage w) k)
          \/ exhausted (storage w))).
Proof.
  intros Hinit. unfold validate_signature. rewrite Hinit. cbn [Z.eqb negb].
  pose proof (key_scan_outcome
                (Z.to_nat (num_public_keys_read (storage w))) 0 (- EINVAL) w
                (Z.le_refl 0)) as H.
  destruct (scan _ 0 (- EINVAL) false w) as [[retval validated] w'].
  specialize (H ltac:(discriminate)).
  inversion H as [k w1 Hk Hp Hv Hs|k rv w1 Hk Hp Hf Hrv Hs|rv w1 Hp Hrv Hs];
    subst.
  - left. exists k. cbn. rewrite PRINT_storage.
    split; [|split; [reflexivity|exact Hs]].
    split; [split; [lia|exact Hp]|exact Hv].
  - right. destruct (Z.eqb_spec retval 0); [contradiction|]. cbn.
    rewrite PRINT_storage. split; [reflexivity|]. split; [exact Hs|].
    left. exists k. destruct Hf as [Hf|Hf]; [left|right];
      (split; [split; [lia|exact Hp]|exact Hf]).
  - right. destruct (Z.eqb_spec retval 0); [contradiction|]. cbn.
    rewrite PRINT_storage. split; [reflexivity|]. split; [exact Hs|].
    right. intros j Hj. apply Hp. lia.
Qed.

Lemma verified_excludes (st : S) (k : Z) :
  verified st k ->
  ~ ((exists k', fault st k' \/ rejected st k') \/ exhausted st).
Proof.
  intros [Hr Hv] [(k' & [[Hr' Hf]|[Hr' Hj]])|He].
  - assert (k = k')
      by (apply (stopping_slot_unique st); tauto).
    subst k'. destruct Hv, Hf. lia.
  - assert (k = k')
      by (apply (stopping_slot_unique st); tauto).
    subst k'. destruct Hv as [_ Hv], Hj as (_ & Hj & _). contradiction.
  - apply (passed_over_not_stopping st k); [apply He, Hr|tauto].
Qed.

Lemma verified_unique (st : S) (k k' : Z) :
  verified st k -> verified st k' -> k = k'.
Proof.
  intros [Hr Hv] [Hr' Hv'].
  apply (stopping_slot_unique st); tauto.
Qed.

Lemma validate_signature_true (w : world S) :
  fst (validate w) = true <->
  bl_crypto_init = 0 /\ exists k, verified (storage w) k.
Proof.
  split.
  - intros Htrue. destruct (Z.eq_dec bl_crypto_init 0) as [Hinit|Hinit].
    + split; [exact Hinit|].
      destruct (validate_signature_outcome w Hinit)
        as [(k & Hk & _)|(Hfalse & _)]; [eauto|congruence].
    + rewrite validate_signature_init_failure in Htrue by exact Hinit.
      discriminate.
  - intros (Hinit & k & Hk).
    destruct (validate_signature_outcome w Hinit)
      as [(_ & _ & Htrue & _)|(_ & _ & Hstop)]; [exact Htrue|].
    exfalso. exact (verified_excludes _ _ Hk Hstop).
Qed.

Lemma validate_signature_verified (w : world S) (k : Z) :
  bl_crypto_init = 0 -> verified (storage w) k ->
  fst (validate w) = true
  /\ storage (snd (validate w)) = invalidate_below k (storage w).
Proof.
  intros Hinit Hk.
  destruct (validate_signature_outcome w Hinit)
    as [(k' & Hk' & Htrue & Hst)|(_ & _ & Hstop)].
  - rewrite (verified_unique _ _ _ Hk Hk'). tauto.
  - exfalso. exact (verified_excludes _ _ Hk Hstop).
Qed.

Lemma validate_signature_false (w : world S) :
  fst (validate w) = false -> storage (snd (validate w)) = storage w.
Proof.
  intros Hfalse. destruct (Z.eq_dec bl_crypto_init 0) as [Hinit|Hinit].
  - destruct (validate_signature_outcome w Hinit)
      as [(_ & _ & Htrue & _)|(_ & Hst & _)]; [congruence|exact Hst].
  - rewrite validate_signature_init_failure by exact Hinit.
    apply PRINT_storage.
Qed.

Lemma validate_signature_not_verified (w : world S) :
  (forall k, ~ verified (storage w) k) ->
  fst (validate w) = false /\ storage (snd (validate w)) = storage w.
Proof.
  intros Hnone.
  assert (Hfalse : fst (validate w) = false).
  { destruct (fst (validate w)) eqn:E; [|reflexivity].
    apply validate_signature_true in E. destruct E as (_ & k & Hk).
    destruct (Hnone k Hk). }
  split; [exact Hfalse|apply validate_signature_false, Hfalse].
Qed.

(** C2. After the root-of-trust call the key loop goes on to the next index
    exactly when the call reports a key-hash mismatch; with any other
    result, success or error, the loop ends there with that result,
    whatever the number of keys left. [validate_signature] returns true
    exactly when the crypto library initialises and the scan verifies at
    a slot; it returns false when the initialisation fails, when the keys
    are exhausted (none, or all invalidated or mismatched), when a slot
    rejects the signature and when a slot faults. *)
Theorem validate_signature_spec :
  (forall count i retval validated w,
     mismatch (storage w) i ->
     scan (Datatypes.S count) i retval validated w
     = scan count (i + 1) (- EHASHINV) validated (announce i w))
  /\ (forall count i retval validated w,
        0 <= read_retval (storage w) i ->
        rot (storage w) i <> - EHASHINV ->
        scan (Datatypes.S count) i retval validated w
        = scan 1 i retval validated w
        /\ fst (fst (scan 1 i retval validated w)) = rot (storage w) i
        /\ snd (fst (scan 1 i retval validated w))
           = (rot (storage w) i =? 0) || validated)
  /\ (forall w,
        fst (validate w) = true <->
        bl_crypto_init = 0 /\ exists k, verified (storage w) k)
  /\ (forall w,
        bl_crypto_init <> 0
        \/ exhausted (storage w)
        \/ (exists k, rejected (storage w) k)
        \/ (exists k, fault (storage w) k) ->
        fst (validate w) = false).
Proof.
  split; [|split; [|split]].
  - intros. apply key_scan_mismatch. assumption.
  - intros count i retval validated w Hread Hrot.
    destruct (Z.eq_dec (rot (storage w) i) 0) as [Hz|Hnz].
    + assert (Hv : verifies (storage w) i) by (split; assumption).
      rewrite !key_scan_verifies by exact Hv. rewrite Hz.
      repeat split; reflexivity.
    + assert (Hr : rejects (storage w) i) by (repeat split; assumption).
      rewrite !key_scan_rejects by exact Hr. cbn [fst snd].
      destruct (Z.eqb_spec (rot (storage w) i) 0); [contradiction|].
      repeat split; reflexivity.
  - apply validate_signature_true.
  - intros w Hstop.
    destruct (fst (validate w)) eqn:E; [|reflexivity].
    apply validate_signature_true in E. destruct E as (Hinit & k & Hk).
    exfalso. destruct Hstop as [H|[H|[(k' & H)|(k' & H)]]].
    + contradiction.
    + apply (verified_excludes _ _ Hk). right. exact H.
    + apply (verified_excludes _ _ Hk). left. exists k'. right. exact H.
    + apply (verified_excludes _ _ Hk). left. exists k'. left. exact H.
Qed.

(** C9. A slot whose read reports [-EINVAL] is skipped: the loop goes on at
    the next index with [-EINVAL] as the pending failure. A read that
    reports [-EHASHFF] or any other error ends the loop at once, whatever
    the number of keys left, with [-EHASHFF] or [-EFAULT], and when the
    scan reaches such a slot [validate_signature] returns false and leaves
    the storage as it was. *)
Theorem key_read_failure_spec :
  (forall count i retval validated w,
     slot_invalidated (storage w) i ->
     scan (Datatypes.S count) i retval validated w
     = scan count (i + 1) (- EINVAL) validated
         (PRINT external (Key_invalidated i) w))
  /\ (forall count i retval validated w,
        slot_fault (storage w) i ->
        scan (Datatypes.S count) i retval validated w
        = scan 1 i retval validated w
        /\ scan 1 i retval validated w
           = if read_retval (storage w) i =? - EHASHFF
             then (- EHASHFF, validated, PRINT external Key_is_FFFF w)
             else (- EFAULT, validated,
                   PRINT external
                     (Key_read_failed (read_retval (storage w) i)) w))
  /\ (forall w k,
        fault (storage w) k ->
        fst (validate w) = false /\ storage (snd (validate w)) = storage w).
Proof.
  split; [|split].
  - intros. apply key_scan_invalidated. assumption.
  - intros count i retval validated w Hf.
    rewrite !key_scan_fault by exact Hf. split; reflexivity.
  - intros w k Hf. apply validate_signature_not_verified.
    intros k' Hk'. apply (verified_excludes _ _ Hk').
    left. exists k. left. exact Hf.
Qed.

(** Invalidation through a storage that keeps its contract. *)

Lemma in_below (k j : Z) :
  In j (map Z.of_nat (seq 0 (Z.to_nat k))) <-> 0 <= j < k.
Proof.
  rewrite in_map_iff. split.
  - intros (x & <- & Hx). apply in_seq in Hx. lia.
  - intros Hj. exists (Z.to_nat j). rewrite in_seq. lia.
Qed.

Context {Laws : key_storage_laws S}.

Lemma invalidate_all_num (l : list Z) (st : S) :
  num_public_keys_read (invalidate_all l st) = num_public_keys_read st.
Proof.
  revert st. induction l as [|a l IH]; intros st; simpl; [reflexivity|].
  rewrite IH. apply num_keys_invalidate.
Qed.

Lemma invalidate_all_read_other (l : list Z) (st : S) (j : Z) :
  ~ In j l ->
  public_key_data_read (invalidate_all l st) j = public_key_data_read st j.
Proof.
  revert st. induction l as [|a l IH]; intros st Hj; simpl; [reflexivity|].
  rewrite IH by (intros H; apply Hj; right; exact H).
  apply read_other. intros ->. apply Hj. left. reflexivity.
Qed.

Lemma invalidate_all_read (l : list Z) (st : S) (j : Z) :
  In j l -> 0 <= j < num_public_keys_read st ->
  fst (public_key_data_read (invalidate_all l st) j) = - EINVAL.
Proof.
  revert st. induction l as [|a l IH]; intros st Hin Hj; simpl; [destruct Hin|].
  destruct (in_dec Z.eq_dec j l) as [Hl|Hl].
  - apply IH; [exact Hl|]. rewrite num_keys_invalidate. exact Hj.
  - rewrite invalidate_all_read_other by exact Hl.
    destruct Hin as [->|Hin]; [|contradiction].
    apply read_invalidated. exact Hj.
Qed.

(** C3. When the scan verifies at slot [k], [validate_signature] returns
    true and leaves the storage with exactly the slots below [k]
    invalidated, in ascending order: afterwards each slot below [k] reads
    as invalidated and every other slot reads as before. A run that
    returns false leaves the storage as it was, and a run that returns
    true verified at some slot. *)
Theorem key_invalidation_spec (w : world S) :
  (forall k,
     bl_crypto_init = 0 -> verified (storage w) k ->
     fst (validate w) = true
     /\ storage (snd (validate w)) = invalidate_below k (storage w)
     /\ (forall j, 0 <= j < k ->
           read_retval (storage (snd (validate w))) j = - EINVAL)
     /\ (forall j, ~ 0 <= j < k ->
           public_key_data_read (storage (snd (validate w))) j
           = public_key_data_read (storage w) j))
  /\ (fst (validate w) = false -> storage (snd (validate w)) = storage w)
  /\ (fst (validate w) = true ->
      exists k, verified (storage w) k
        /\ storage (snd (validate w)) = invalidate_below k (storage w)).
Proof.
  split; [|split].
  - intros k Hinit Hk.
    destruct (validate_signature_verified w k Hinit Hk) as [Htrue Hst].
    split; [exact Htrue|]. split; [exact Hst|]. rewrite Hst. split.
    + intros j Hj. apply invalidate_all_read; [apply in_below, Hj|].
      destruct Hk as [[Hrange _] _]. lia.
    + intros j Hj. apply invalidate_all_read_other.
      rewrite in_below. exact Hj.
  - apply validate_signature_false.
  - intros Htrue. apply validate_signature_true in Htrue.
    destruct Htrue as (Hinit & k & Hk). exists k. split; [exact Hk|].
    apply validate_signature_verified; assumption.
Qed.

End KeyScan.

(** ** Monotonic version *)

Section MonotonicVersion.

Context {S : Type} `{Storage : bl_storage S}.

Lemma lor_even_bit (a b : Z) :
  0 <= b <= 1 -> Z.lor (2 * a) b = 2 * a + b.
Proof.
  intros Hb.
  assert (Hland : Z.land (2 * a) b = 0).
  { assert (Hcase : b = 0 \/ b = 1) by lia.
    destruct Hcase as [->| ->]; [apply Z.land_0_r|].
    change 1 with (Z.ones 1). rewrite Z.land_ones by lia.
    change (2 ^ 1) with 2. rewrite Z.mul_comm. apply Z.mod_mul. lia. }
  rewrite <- Z.lxor_lor by exact Hland.
  symmetry. apply Z.add_nocarry_lxor. exact Hland.
Qed.

Lemma lnot_bit (b : Z) : 0 <= b <= 1 -> lnot b = 1 - b.
Proof. intros Hb. unfold lnot. destruct (Z.eqb_spec b 0); lia. Qed.

(** The word handed to the counter. *)
Lemma monotonic_word (version slot : Z) :
  0 <= slot <= 1 ->
  Z.lor (Z.shiftl version 1) (lnot slot) = 2 * version + (1 - slot).
Proof.
  intros Hs. rewrite lnot_bit by exact Hs.
  rewrite Z.shiftl_mul_pow2 by lia. change (2 ^ 1) with 2.
  rewrite (Z.mul_comm version 2). apply lor_even_bit. lia.
Qed.

(** The decoding of [get_monotonic_version]. *)
Lemma monotonic_decode (version slot : Z) :
  0 <= version <= 0x7FFF -> 0 <= slot <= 1 ->
  let v := u16 (2 * version + (1 - slot)) in
  (Z.shiftr v 1, lnot (Z.land v 1)) = (version, slot).
Proof.
  intros Hv Hs v. subst v. unfold u16.
  rewrite Z.mod_small by lia.
  rewrite Z.shiftr_div_pow2 by lia. change (2 ^ 1) with 2.
  change 1 with (Z.ones 1) at 3. rewrite Z.land_ones by lia.
  change (2 ^ 1) with 2.
  assert (Hdiv : (2 * version + (1 - slot)) / 2 = version)
    by (symmetry; apply (Z.div_unique _ 2 version (1 - slot)); lia).
  assert (Hmod : (2 * version + (1 - slot)) mod 2 = 1 - slot)
    by (symmetry; apply (Z.mod_unique _ 2 version (1 - slot)); lia).
  rewrite Hdiv, Hmod, lnot_bit by lia. f_equal. lia.
Qed.

Variables (version slot : Z) (w : world S).

#[local] Abbreviation written :=
  (set_monotonic_counter (Z.lor (Z.shiftl version 1) (lnot slot)) (storage w)).

Lemma set_monotonic_version_result :
  fst (set_monotonic_version version slot w) = fst written
  /\ storage (snd (set_monotonic_version version slot w)) = snd written.
Proof.
  unfold set_monotonic_version. cbn [printk storage console].
  destruct written as [err st]. cbn [storage fst snd].
  destruct (num_monotonic_counter_slots st =? 0);
    [|destruct (negb (err =? 0))]; split; reflexivity.
Qed.

(** C5. For every version up to [0x7FFF] and each slot 0 or 1, when the
    counter write of [set_monotonic_version] reports success on a storage
    that reads back the words it wrote, [get_monotonic_version] returns
    that version and that slot. *)
Theorem monotonic_version_round_trip {Laws : counter_storage_laws S} :
  0 <= version <= 0x7FFF -> 0 <= slot <= 1 ->
  fst (set_monotonic_version version slot w) = 0 ->
  get_monotonic_version (storage (snd (set_monotonic_version version slot w)))
  = (version, slot).
Proof.
  intros Hv Hs Hok.
  destruct set_monotonic_version_result as [Herr Hst].
  rewrite Herr in Hok. rewrite Hst. clear Herr Hst.
  unfold get_monotonic_version.
  rewrite (counter_read_back (storage w) (snd written)
             (2 * version + (1 - slot))).
  - apply monotonic_decode; assumption.
  - lia.
  - rewrite <- monotonic_word by exact Hs.
    destruct written as [err st]. simpl in *. subst err. reflexivity.
Qed.

(** C6 as the code has it. [set_monotonic_version] hands the encoded word
    to [set_monotonic_counter] and returns the error code of that write
    unchanged, also on a device without counter slots; such a device only
    changes the second console line, which then says that the counter is
    disabled instead of reporting the error. *)
Theorem set_monotonic_version_spec :
  fst (set_monotonic_version version slot w) = fst written
  /\ storage (snd (set_monotonic_version version slot w)) = snd written
  /\ (num_monotonic_counter_slots (snd written) = 0 ->
      console (snd (set_monotonic_version version slot w))
      = console w
        ++ [Setting_monotonic_counter version slot;
            Monotonic_counter_disabled])
  /\ (num_monotonic_counter_slots (snd written) <> 0 ->
      console (snd (set_monotonic_version version slot w))
      = console w
        ++ Setting_monotonic_counter version slot
           :: (if fst written =? 0 then []
               else [Set_monotonic_counter_error (fst written)])).
Proof.
  destruct set_monotonic_version_result as [Herr Hst].
  split; [exact Herr|]. split; [exact Hst|]. clear Herr Hst.
  unfold set_monotonic_version. cbn [printk storage console].
  destruct written as [err st]. cbn [storage fst snd]. split.
  - intros ->. cbn. rewrite <- app_assoc. reflexivity.
  - intros Hn.
    destruct (Z.eqb_spec (num_monotonic_counter_slots st) 0);
      [contradiction|].
    destruct (err =? 0); cbn; [reflexivity|].
    rewrite <- app_assoc. reflexivity.
Qed.

End MonotonicVersion.

(** * Further properties of the unit *)

(** ** Region predicates *)

Lemma region_within_true (inner_start inner_end start end_ : Z) :
  region_within inner_start inner_end start end_ = true <->
  inner_start <= inner_end
  /\ within inner_start start end_ = true
  /\ within inner_end start end_ = true.
Proof.
  unfold region_within.
  destruct (Z.gtb_spec inner_start inner_end) as [Hgt|Hle].
  - split; [discriminate|]. intros (H & _). lia.
  - destruct (within inner_start start end_); cbn [negb].
    + destruct (within inner_end start end_); cbn [negb].
      * split; [intros _; auto|reflexivity].
      * split; [discriminate|]. intros (_ & _ & H). discriminate H.
    + split; [discriminate|]. intros (_ & H & _). discriminate H.
Qed.

(** X1. Checking the two endpoints is enough: when [region_within]
    accepts, every address from [inner_start] to [inner_end] lies in the
    outer range, and the outer range is well formed and not empty. *)
Theorem region_within_interior (inner_start inner_end start end_ x : Z) :
  region_within inner_start inner_end start end_ = true ->
  inner_start <= x <= inner_end ->
  within x start end_ = true /\ start < end_.
Proof.
  unfold region_within. intros H Hx.
  destruct (Z.gtb_spec inner_start inner_end); [discriminate|].
  destruct (within inner_start start end_) eqn:Ha; [|discriminate].
  destruct (within inner_end start end_) eqn:Hb; [|discriminate].
  apply within_true in Ha. apply within_true in Hb.
  split; [apply within_true|]; lia.
Qed.

(** X2. The inner end is held to the half-open bound: an inner region
    that ends at the end of the outer range is rejected, so a range is
    never within itself. *)
Theorem region_within_end_excluded (inner_start start end_ : Z) :
  region_within inner_start end_ start end_ = false
  /\ region_within start end_ start end_ = false.
Proof.
  assert (H : forall a, region_within a end_ start end_ = false).
  { intros a. unfold region_within.
    destruct (a >? end_); [reflexivity|].
    destruct (within a start end_); [|reflexivity].
    assert (Hend : within end_ start end_ = false).
    { destruct (within end_ start end_) eqn:E; [|reflexivity].
      apply within_true in E. lia. }
    rewrite Hend. reflexivity. }
  split; apply H.
Qed.

(** ** Monotonic version *)

Section MonotonicVersionMore.

Context {S : Type} `{Storage : bl_storage S}.

(** X3. Whatever the counter holds, [get_monotonic_version] returns a
    version of at most [0x7FFF] and a slot that is 0 or 1. *)
Theorem get_monotonic_version_range (st : S) :
  0 <= fst (get_monotonic_version st) <= 0x7FFF
  /\ (snd (get_monotonic_version st) = 0
      \/ snd (get_monotonic_version st) = 1).
Proof.
  unfold get_monotonic_version, u16. cbn [fst snd].
  set (c := get_monotonic_counter st mod 2 ^ 16).
  assert (Hc : 0 <= c < 2 ^ 16) by (apply Z.mod_pos_bound; lia).
  rewrite Z.shiftr_div_pow2 by lia. change (2 ^ 1) with 2. split.
  - split; [apply Z.div_pos; lia|].
    apply Z.lt_succ_r. apply Z.div_lt_upper_bound; lia.
  - unfold lnot. destruct (Z.land c 1 =? 0); auto.
Qed.

(** X4. The decoded version follows the counter: when the 16-bit counter
    of one state is at most that of another, so is the version, and the
    two versions differ as soon as the counters differ by two or more. *)
Theorem get_monotonic_version_monotone (st1 st2 : S) :
  u16 (get_monotonic_counter st1) <= u16 (get_monotonic_counter st2) ->
  fst (get_monotonic_version st1) <= fst (get_monotonic_version st2)
  /\ (u16 (get_monotonic_counter st1) + 2 <= u16 (get_monotonic_counter st2)
      -> fst (get_monotonic_version st1) < fst (get_monotonic_version st2)).
Proof.
  unfold get_monotonic_version. cbn [fst].
  generalize (u16 (get_monotonic_counter st1)).
  generalize (u16 (get_monotonic_counter st2)).
  intros c2 c1 Hle. rewrite !Z.shiftr_div_pow2 by lia. change (2 ^ 1) with 2.
  split; [apply Z.div_le_mono; lia|].
  intros Hgap. replace c2 with (c1 + (c2 - c1)) by lia.
  assert (H : c1 / 2 + 1 <= (c1 + (c2 - c1)) / 2).
  { replace (c1 / 2 + 1) with ((c1 + 1 * 2) / 2)
      by (rewrite Z.div_add by lia; reflexivity).
    apply Z.div_le_mono; lia. }
  lia.
Qed.


(** A successful write is decoded to what was written. *)
Lemma get_after_set {Laws : counter_storage_laws S}
    (version slot : Z) (w : world S) :
  0 <= version <= 0x7FFF -> 0 <= slot <= 1 ->
  fst (set_monotonic_version version slot w) = 0 ->
  get_monotonic_version (storage (snd (set_monotonic_version version slot w)))
  = (version, slot).
Proof.
  intros Hv Hs Hok.
  destruct (set_monotonic_version_result version slot w) as [Herr Hst].
  rewrite Herr in Hok. rewrite Hst. clear Herr Hst.
  unfold get_monotonic_version.
  rewrite (counter_read_back (storage w)
             (snd (set_monotonic_counter
                     (Z.lor (Z.shiftl version 1) (lnot slot)) (storage w)))
             (2 * version + (1 - slot))).
  - apply monotonic_decode; assumption.
  - lia.
  - rewrite <- monotonic_word by exact Hs.
    destruct (set_monotonic_counter _ (storage w)) as [err st].
    simpl in *. subst err. reflexivity.
Qed.

End MonotonicVersionMore.

(** ** The scan for the validation info *)

Section ValidationInfo.

Context `{Cfg : bl_config}.

Lemma validation_info_check_true (m : memory) (vinfo : Z) :
  validation_info_check m vinfo = true <->
  has_validation_magic m vinfo /\ vinfo <> 0.
Proof.
  unfold validation_info_check, has_validation_magic.
  destruct (memcmp_eq m vinfo _).
  - destruct (Z.eqb_spec vinfo 0) as [H0|H0]; simpl.
    + split; [discriminate|]. intros [_ H]. contradiction.
    + split; [intros _; split; [reflexivity|exact H0]|reflexivity].
  - split; [discriminate|]. intros [H _]. discriminate H.
Qed.

Lemma validation_info_scan_spec (m : memory) (start_address : Z)
    (count : nat) :
  forall i,
    let p := validation_info_scan m start_address count i in
    (p <> 0 ->
     exists k, i <= k < i + Z.of_nat count
       /\ p = u32 (start_address + k)
       /\ validation_info_check m p = true
       /\ forall j, i <= j < k ->
            validation_info_check m (u32 (start_address + j)) = false)
    /\ (p = 0 ->
        forall j, i <= j < i + Z.of_nat count ->
          validation_info_check m (u32 (start_address + j)) = false).
Proof.
  induction count as [|count IH]; intros i; cbn [validation_info_scan].
  - split; [intros H; contradiction|]. intros _ j Hj. lia.
  - cbv zeta.
    destruct (validation_info_check m (u32 (start_address + i))) eqn:E.
    + split.
      * intros _. exists i. repeat split; [lia|lia|exact E|].
        intros j Hj. lia.
      * intros H0. apply validation_info_check_true in E.
        destruct E as [_ E]. contradiction.
    + destruct (IH (i + 1)) as [Hfound Hnone]. split.
      * intros Hp. destruct (Hfound Hp) as (k & Hk & Hpk & Hck & Hbefore).
        exists k. repeat split; [lia|lia|exact Hpk|exact Hck|].
        intros j Hj. destruct (Z.eq_dec j i) as [->|]; [exact E|].
        apply Hbefore. lia.
      * intros Hp j Hj. destruct (Z.eq_dec j i) as [->|]; [exact E|].
        apply Hnone; [exact Hp|lia].
Qed.


End ValidationInfo.

(** ** The hash check *)

Section ValidateHash.

Context {S : Type} `{Cfg : bl_config} `{Crypto : bl_crypto}
  `{Storage : bl_storage S}.

Variables (m : memory) (fw_src_address fw_size fw_val_info : Z)
  (external : bool).

(** X6. [validate_hash] returns true exactly when the crypto library
    initialises and [bl_sha256_verify] accepts the hash stored in the
    validation info; it never changes the storage, and a local call
    prints one line. *)
Theorem validate_hash_spec (w : world S) :
  let result :=
    validate_hash m fw_src_address fw_size fw_val_info external w in
  (fst result = true <->
   bl_crypto_init = 0
   /\ bl_sha256_verify m fw_src_address fw_size
        (fw_val_info + offsetof_vinfo_hash) = 0)
  /\ storage (snd result) = storage w
  /\ exists line,
       console (snd result)
       = console w ++ (if external then [] else [line]).
Proof.
  intros result. subst result. unfold validate_hash.
  destruct (Z.eqb_spec bl_crypto_init 0) as [Hi|Hi]; cbn [negb].
  - destruct (Z.eqb_spec
                (bl_sha256_verify m fw_src_address fw_size
                   (fw_val_info + offsetof_vinfo_hash)) 0) as [Hh|Hh];
      cbn [negb fst snd]; rewrite PRINT_storage, PRINT_console.
    + split; [tauto|]. split; [reflexivity|]. eexists. reflexivity.
    + split; [split; [discriminate|tauto]|].
      split; [reflexivity|]. eexists. reflexivity.
  - cbn [fst snd]. rewrite PRINT_storage, PRINT_console.
    split; [split; [discriminate|tauto]|].
    split; [reflexivity|]. eexists. reflexivity.
Qed.

End ValidateHash.

(** ** Bytes and words *)

Lemma load8_range (m : memory) (a : Z) : 0 <= load8 m a < 256.
Proof. unfold load8. apply Z.mod_pos_bound. lia. Qed.

Lemma testbit_small (x n i : Z) :
  0 <= x < 2 ^ n -> n <= i -> Z.testbit x i = false.
Proof.
  intros Hx Hi. destruct (Z.eq_dec x 0) as [->|Hnz]; [apply Z.bits_0|].
  apply Z.bits_above_log2; [lia|].
  assert (0 <= n) by (destruct (Z.lt_ge_cases n 0) as [Hn|Hn];
    [rewrite Z.pow_neg_r in Hx by exact Hn; lia|exact Hn]).
  assert (Z.log2 x < n) by (apply Z.log2_lt_pow2; lia). lia.
Qed.

Lemma lor_disjoint (x y n : Z) :
  0 <= x < 2 ^ n -> 0 <= n -> Z.lor x (Z.shiftl y n) = x + y * 2 ^ n.
Proof.
  intros Hx Hn.
  assert (Hland : Z.land x (Z.shiftl y n) = 0).
  { apply Z.bits_inj'. intros i Hi. rewrite Z.land_spec, Z.bits_0.
    destruct (Z.lt_ge_cases i n) as [Hlt|Hge].
    - rewrite Z.shiftl_spec_low by exact Hlt. apply andb_false_r.
    - rewrite (testbit_small x n i) by assumption. reflexivity. }
  rewrite <- Z.lxor_lor by exact Hland.
  rewrite <- Z.add_nocarry_lxor by exact Hland.
  rewrite Z.shiftl_mul_pow2 by exact Hn. reflexivity.
Qed.

(** A word is the little-endian sum of its bytes. *)
Lemma load32_sum (m : memory) (a : Z) :
  load32 m a
  = load8 m a + 2 ^ 8 * load8 m (a + 1) + 2 ^ 16 * load8 m (a + 2)
    + 2 ^ 24 * load8 m (a + 3).
Proof.
  unfold load32.
  pose proof (load8_range m a) as H0.
  pose proof (load8_range m (a + 1)) as H1.
  pose proof (load8_range m (a + 2)) as H2.
  pose proof (load8_range m (a + 3)) as H3.
  set (b0 := load8 m a) in *. set (b1 := load8 m (a + 1)) in *.
  set (b2 := load8 m (a + 2)) in *. set (b3 := load8 m (a + 3)) in *.
  replace (Z.shiftl b3 24) with (Z.shiftl (Z.shiftl b3 8) 16)
    by (rewrite Z.shiftl_shiftl by lia; reflexivity).
  rewrite <- Z.shiftl_lor.
  rewrite (lor_disjoint b2 b3 8) by lia.
  replace (Z.shiftl (b2 + b3 * 2 ^ 8) 16)
    with (Z.shiftl (Z.shiftl (b2 + b3 * 2 ^ 8) 8) 8)
    by (rewrite Z.shiftl_shiftl by lia; reflexivity).
  rewrite <- Z.shiftl_lor.
  rewrite (lor_disjoint b1 (b2 + b3 * 2 ^ 8) 8) by lia.
  rewrite (lor_disjoint b0 _ 8) by lia.
  lia.
Qed.

Lemma load32_range (m : memory) (a : Z) : 0 <= load32 m a < 2 ^ 32.
Proof.
  rewrite load32_sum.
  pose proof (load8_range m a). pose proof (load8_range m (a + 1)).
  pose proof (load8_range m (a + 2)). pose proof (load8_range m (a + 3)).
  lia.
Qed.

(** The bytes of a 32-bit word are its base-256 digits. *)
Lemma word_bytes_digits (x : Z) :
  word_bytes x
  = [x mod 2 ^ 8; (x / 2 ^ 8) mod 2 ^ 8; (x / 2 ^ 16) mod 2 ^ 8;
     (x / 2 ^ 24) mod 2 ^ 8].
Proof.
  unfold word_bytes. change 255 with (Z.ones 8).
  rewrite !Z.land_ones, !Z.shiftr_div_pow2 by lia. reflexivity.
Qed.

(** Comparing the four bytes at [p] with the bytes of a 32-bit word is
    comparing the word at [p] with it. *)
Lemma memcmp_eq_word (m : memory) (p x : Z) (bs : list Z) :
  0 <= x < 2 ^ 32 ->
  memcmp_eq m p (word_bytes x ++ bs)
  = (load32 m p =? x) && memcmp_eq m (p + 4) bs.
Proof.
  intros Hx. rewrite word_bytes_digits. cbn [app memcmp_eq].
  replace (p + 1 + 1) with (p + 2) by lia.
  replace (p + 2 + 1) with (p + 3) by lia.
  replace (p + 3 + 1) with (p + 4) by lia.
  rewrite load32_sum.
  pose proof (load8_range m p) as H0.
  pose proof (load8_range m (p + 1)) as H1.
  pose proof (load8_range m (p + 2)) as H2.
  pose proof (load8_range m (p + 3)) as H3.
  set (b0 := load8 m p) in *. set (b1 := load8 m (p + 1)) in *.
  set (b2 := load8 m (p + 2)) in *. set (b3 := load8 m (p + 3)) in *.
  rewrite !andb_assoc. f_equal.
  destruct (Z.eqb_spec
              (b0 + 2 ^ 8 * b1 + 2 ^ 16 * b2 + 2 ^ 24 * b3) x) as [E|E].
  - subst x.
    assert (E0 : (b0 + 2 ^ 8 * b1 + 2 ^ 16 * b2 + 2 ^ 24 * b3) mod 2 ^ 8
                 = b0)
      by (symmetry; apply Z.mod_unique_pos
            with (q := b1 + 2 ^ 8 * b2 + 2 ^ 16 * b3); lia).
    assert (E1 : ((b0 + 2 ^ 8 * b1 + 2 ^ 16 * b2 + 2 ^ 24 * b3) / 2 ^ 8)
                 mod 2 ^ 8 = b1).
    { replace ((b0 + 2 ^ 8 * b1 + 2 ^ 16 * b2 + 2 ^ 24 * b3) / 2 ^ 8)
        with (b1 + 2 ^ 8 * b2 + 2 ^ 16 * b3)
        by (apply Z.div_unique_pos with (r := b0); lia).
      symmetry. apply Z.mod_unique_pos with (q := b2 + 2 ^ 8 * b3); lia. }
    assert (E2 : ((b0 + 2 ^ 8 * b1 + 2 ^ 16 * b2 + 2 ^ 24 * b3) / 2 ^ 16)
                 mod 2 ^ 8 = b2).
    { replace ((b0 + 2 ^ 8 * b1 + 2 ^ 16 * b2 + 2 ^ 24 * b3) / 2 ^ 16)
        with (b2 + 2 ^ 8 * b3)
        by (apply Z.div_unique_pos with (r := b0 + 2 ^ 8 * b1); lia).
      symmetry. apply Z.mod_unique_pos with (q := b3); lia. }
    assert (E3 : ((b0 + 2 ^ 8 * b1 + 2 ^ 16 * b2 + 2 ^ 24 * b3) / 2 ^ 24)
                 mod 2 ^ 8 = b3).
    { replace ((b0 + 2 ^ 8 * b1 + 2 ^ 16 * b2 + 2 ^ 24 * b3) / 2 ^ 24)
        with b3
        by (apply Z.div_unique_pos
              with (r := b0 + 2 ^ 8 * b1 + 2 ^ 16 * b2); lia).
      apply Z.mod_small. lia. }
    rewrite E0, E1, E2, E3, !Z.eqb_refl. reflexivity.
  - destruct (Z.eqb_spec b0 (x mod 2 ^ 8)) as [F0|F0]; [|reflexivity].
    destruct (Z.eqb_spec b1 ((x / 2 ^ 8) mod 2 ^ 8)) as [F1|F1];
      [|reflexivity].
    destruct (Z.eqb_spec b2 ((x / 2 ^ 16) mod 2 ^ 8)) as [F2|F2];
      [|reflexivity].
    destruct (Z.eqb_spec b3 ((x / 2 ^ 24) mod 2 ^ 8)) as [F3|F3];
      [|reflexivity].
    exfalso. apply E. rewrite F0, F1, F2, F3.
    clear - Hx.
    change (2 ^ 8) with 256. change (2 ^ 16) with 65536.
    change (2 ^ 24) with 16777216. change (2 ^ 32) with 4294967296 in Hx.
    Z.div_mod_to_equations. lia.
Qed.

(** ** The helpers of fw_metadata.h *)

Lemma words_bytes_cons (x : Z) (ws : list Z) :
  words_bytes (x :: ws) = word_bytes x ++ words_bytes ws.
Proof. reflexivity. Qed.

Lemma memeq_32_loop_memcmp (m : memory) (p : Z) (post : list Z) :
  forall ws pre,
    words32 ws ->
    FwMetadata.memeq_32_loop m p (pre ++ ws ++ post) (length ws)
      (Z.of_nat (length pre))
    = memcmp_eq m (p + 4 * Z.of_nat (length pre)) (words_bytes ws).
Proof.
  induction ws as [|x ws IH]; intros pre Hws; [reflexivity|].
  inversion Hws as [|? ? Hx Hws']; subst.
  change ((x :: ws) ++ post) with (x :: ws ++ post).
  cbn [length FwMetadata.memeq_32_loop]. rewrite Nat2Z.id.
  rewrite (nth_middle pre (ws ++ post) x 0).
  rewrite words_bytes_cons, memcmp_eq_word by exact Hx.
  destruct (load32 m (p + 4 * Z.of_nat (length pre)) =? x);
    cbn [negb andb]; [|reflexivity].
  specialize (IH (pre ++ [x]) Hws').
  rewrite <- app_assoc, length_app in IH. cbn [app length] in IH.
  replace (Z.of_nat (length pre + 1)) with (Z.of_nat (length pre) + 1)
    in IH by lia.
  rewrite IH. f_equal. lia.
Qed.

(** Word-wise and byte-wise comparison agree. *)
Lemma memeq_32_memcmp (m : memory) (p len : Z) (ws : list Z) :
  words32 ws -> 0 <= len / 4 <= Z.of_nat (length ws) ->
  FwMetadata.memeq_32 m p ws len
  = memcmp_eq m p (words_bytes (firstn (Z.to_nat (len / 4)) ws)).
Proof.
  intros Hws Hlen. unfold FwMetadata.memeq_32.
  pose proof (memeq_32_loop_memcmp m p (skipn (Z.to_nat (len / 4)) ws)
                (firstn (Z.to_nat (len / 4)) ws) []) as H.
  cbn [app length] in H. change (Z.of_nat 0) with 0 in H.
  rewrite firstn_skipn in H.
  rewrite length_firstn, Nat.min_l in H by lia.
  rewrite H.
  - f_equal. lia.
  - apply Forall_take. exact Hws.
Qed.

(** X7. The word-wise [memeq_32] gives the answer of a byte-wise
    comparison: over an array of 32-bit words it accepts exactly when the
    first [len / 4] words of the array, laid out in memory order, equal
    the bytes at the address, at any alignment of the address; a length
    that is not a multiple of four is rounded down, so the last
    [len mod 4] bytes are not compared. *)
Theorem memeq_32_bytewise (m : memory) (p len : Z) (ws : list Z) :
  words32 ws -> 0 <= len / 4 <= Z.of_nat (length ws) ->
  FwMetadata.memeq_32 m p ws len
  = memcmp_eq m p (words_bytes (firstn (Z.to_nat (len / 4)) ws))
  /\ FwMetadata.memeq_32 m p ws len
     = FwMetadata.memeq_32 m p ws (len - len mod 4).
Proof.
  intros Hws Hlen. split; [apply memeq_32_memcmp; assumption|].
  unfold FwMetadata.memeq_32. f_equal. f_equal.
  rewrite (Z.div_mod len 4) at 2 by lia.
  replace (4 * (len / 4) + len mod 4 - len mod 4) with (len / 4 * 4) by lia.
  rewrite Z.div_mul by lia. reflexivity.
Qed.

(** X18. [firmware_info_get] looks at one place only, the configured
    offset from the firmware address (modulo [2^32]): it returns that
    address when the magic words of the firmware info lie there, byte for
    byte, and [NULL] when they do not; so a result other than [NULL] is
    that address and carries the magic. *)
Theorem firmware_info_get_spec `{Sb : FwMetadata.sb_config}
    (m : memory) (firmware_address : Z) :
  words32 FwMetadata.FIRMWARE_INFO_MAGIC ->
  0 <= FwMetadata.CONFIG_SB_MAGIC_LEN / 4
    <= Z.of_nat (length FwMetadata.FIRMWARE_INFO_MAGIC) ->
  let at_offset :=
    u32 (firmware_address + FwMetadata.CONFIG_SB_FIRMWARE_INFO_OFFSET) in
  let magic_bytes :=
    words_bytes
      (firstn (Z.to_nat (FwMetadata.CONFIG_SB_MAGIC_LEN / 4))
         FwMetadata.FIRMWARE_INFO_MAGIC) in
  let finfo := FwMetadata.firmware_info_get m firmware_address in
  (memcmp_eq m at_offset magic_bytes = true -> finfo = at_offset)
  /\ (memcmp_eq m at_offset magic_bytes = false -> finfo = 0)
  /\ (finfo <> 0 ->
      finfo = at_offset /\ memcmp_eq m finfo magic_bytes = true).
Proof.
  intros Hws Hlen at_offset magic_bytes finfo. subst finfo.
  unfold FwMetadata.firmware_info_get. fold at_offset.
  rewrite memeq_32_memcmp by assumption. fold magic_bytes.
  destruct (memcmp_eq m at_offset magic_bytes) eqn:E.
  - split; [reflexivity|]. split; [discriminate|].
    intros _. split; [reflexivity|exact E].
  - split; [discriminate|]. split; [reflexivity|].
    intros H. contradiction.
Qed.

Section TwoScans.

Context `{Cfg : bl_config} `{Sb : FwMetadata.sb_config}.

Hypothesis magic_len : FwMetadata.CONFIG_SB_MAGIC_LEN = 12.
Hypothesis magic_same : FwMetadata.VALIDATION_INFO_MAGIC = VALIDATION_INFO_MAGIC.
Hypothesis magic_words : length VALIDATION_INFO_MAGIC = 3%nat.
Hypothesis magic_32 : words32 VALIDATION_INFO_MAGIC.

Lemma memeq_32_validation_magic (m : memory) (p : Z) :
  FwMetadata.memeq_32 m p FwMetadata.VALIDATION_INFO_MAGIC
    FwMetadata.CONFIG_SB_MAGIC_LEN
  = memcmp_eq m p
      (firstn (Z.to_nat CONFIG_FW_INFO_MAGIC_LEN)
         (words_bytes VALIDATION_INFO_MAGIC)).
Proof.
  rewrite magic_len, magic_same.
  rewrite memeq_32_memcmp
    by (try exact magic_32; rewrite magic_words; cbv; split; discriminate).
  destruct VALIDATION_INFO_MAGIC as [|a [|b [|c [|d l]]]];
    try discriminate magic_words.
  reflexivity.
Qed.

Lemma validation_info_scans_agree (m : memory) (start : Z) (count : nat) :
  forall i,
    (forall j, i <= j < i + Z.of_nat count -> u32 (start + j) <> 0) ->
    FwMetadata.validation_info_scan m start count i
    = validation_info_scan m start count i.
Proof.
  induction count as [|count IH]; intros i Hnz; [reflexivity|].
  cbn [FwMetadata.validation_info_scan validation_info_scan]. cbv zeta.
  unfold validation_info_check.
  rewrite memeq_32_validation_magic.
  destruct (memcmp_eq m (u32 (start + i)) _).
  - destruct (Z.eqb_spec (u32 (start + i)) 0) as [E|E]; [|reflexivity].
    exfalso. apply (Hnz i); [lia|exact E].
  - apply IH. intros j Hj. apply Hnz. lia.
Qed.

(** X8. The scan of [fw_metadata.h] and the scan of [bl_validation.c]
    find the same validation info: with a magic of three 32-bit words
    ([CONFIG_SB_MAGIC_LEN = 12]) and the same magic constant, when none
    of the scanned addresses is [0], [validation_info_find] of the header,
    started from the firmware info, returns what the validator's
    [validation_info_find] returns from [firmware_address +
    firmware_size]. *)
Theorem validation_info_find_agree (m : memory)
    (finfo search_distance : Z) :
  let start :=
    u32 (FwMetadata.firmware_address m finfo
         + FwMetadata.firmware_size m finfo) in
  0 <= search_distance ->
  (forall j, 0 <= j <= search_distance -> u32 (start + j) <> 0) ->
  FwMetadata.validation_info_find m finfo search_distance
  = validation_info_find m start search_distance.
Proof.
  intros start Hd Hnz.
  unfold FwMetadata.validation_info_find, validation_info_find.
  apply validation_info_scans_agree. intros j Hj. apply Hnz. lia.
Qed.

End TwoScans.

(** ** The pipeline as a whole *)

Section PipelineMore.

Context {S : Type} `{Cfg : bl_config} `{Crypto : bl_crypto}
  `{Storage : bl_storage S}.

Lemma invalidate_keys_console_external (count : nat) :
  forall i (w : world S),
    console (invalidate_keys true count i w) = console w.
Proof.
  induction count as [|count IH]; intros i w; [reflexivity|].
  cbn [invalidate_keys PRINT]. rewrite IH. reflexivity.
Qed.

Lemma key_scan_console_external (m : memory)
    (fw_src_address fw_size fw_val_info : Z) (count : nat) :
  forall i retval validated (w : world S),
    console (snd (key_scan m fw_src_address fw_size fw_val_info true
                    count i retval validated w))
    = console w.
Proof.
  induction count as [|count IH]; intros i retval validated w;
    [reflexivity|].
  cbn [key_scan PRINT].
  destruct (public_key_data_read (storage w) i) as [rr kd].
  destruct (rr <? 0).
  - destruct (rr =? - EINVAL); [apply IH|].
    destruct (rr =? - EHASHFF); reflexivity.
  - destruct (rot_verify true m _ kd _ fw_src_address fw_size =? 0).
    + destruct (negb _); cbn [snd].
      * apply invalidate_keys_console_external.
      * rewrite IH. apply invalidate_keys_console_external.
    + destruct (negb _); [reflexivity|apply IH].
Qed.

Lemma verify_firmware_console_external (m : memory)
    (fw_src_address fw_size fw_val_info : Z) (w : world S) :
  console (snd (verify_firmware m fw_src_address fw_size fw_val_info
                  true w))
  = console w.
Proof.
  unfold verify_firmware, validate_signature, validate_hash.
  destruct CONFIG_SB_VALIDATE_FW_SIGNATURE.
  - destruct (negb (bl_crypto_init =? 0)); [reflexivity|].
    pose proof (key_scan_console_external m fw_src_address fw_size
                  fw_val_info
                  (Z.to_nat (num_public_keys_read (storage w)))
                  0 (- EINVAL) false w) as H.
    destruct (key_scan _ _ _ _ _ _ _ _ _ _) as [[retval validated] w'].
    cbn [snd] in H.
    destruct (negb (retval =? 0)); [exact H|].
    destruct validated; exact H.
  - destruct (negb (bl_crypto_init =? 0)); [reflexivity|].
    destruct (negb _); reflexivity.
Qed.

Lemma run_checks_cases (cs : list (bool * console_line)) (external : bool)
    (verify : world S -> bool * world S) (w : world S) :
  (Forall passes cs /\ run_checks cs external verify w = verify w)
  \/ exists line,
       run_checks cs external verify w = (false, PRINT external line w).
Proof.
  induction cs as [|[ok line] cs IH]; cbn [run_checks].
  - left. split; [constructor|reflexivity].
  - destruct ok.
    + destruct IH as [[Hall Hrun]|Hfail]; [left|right; exact Hfail].
      split; [constructor; [reflexivity|exact Hall]|exact Hrun].
    + right. exists line. reflexivity.
Qed.

(** X9. A validation through the external API prints nothing:
    [bl_validate_firmware] leaves the console as it was, whatever the
    verdict; and when no firmware info is found at the source address it
    returns false and changes nothing at all. *)
Theorem external_validation_silent (m : memory)
    (fw_dst_address fw_src_address : Z) (w : world S) :
  console (snd (bl_validate_firmware m fw_dst_address fw_src_address w))
  = console w
  /\ (fw_info_find m fw_src_address = 0 ->
      bl_validate_firmware m fw_dst_address fw_src_address w = (false, w)).
Proof.
  split.
  - unfold bl_validate_firmware. rewrite validate_firmware_run_checks.
    destruct (run_checks_cases
                (checks m fw_dst_address fw_src_address
                   (fw_info_find m fw_src_address) true (storage w))
                true
                (delegate m fw_src_address (fw_info_find m fw_src_address)
                   true) w)
      as [[_ ->]|[line ->]]; [|reflexivity].
    apply verify_firmware_console_external.
  - intros H. unfold bl_validate_firmware, validate_firmware.
    rewrite H. reflexivity.
Qed.

Variables (m : memory) (fw_dst_address fw_src_address fwinfo : Z)
  (external : bool).

#[local] Abbreviation result :=
  (validate_firmware m fw_dst_address fw_src_address fwinfo external).
#[local] Abbreviation size := (fwinfo_size m fwinfo).
#[local] Abbreviation found :=
  (validation_info_find m (u32 (fw_src_address + fwinfo_size m fwinfo)) 4).

Lemma rejection_keeps_storage (w : world S) :
  fst (result w) = false -> storage (snd (result w)) = storage w.
Proof.
  rewrite validate_firmware_run_checks.
  destruct (run_checks_cases
              (checks m fw_dst_address fw_src_address fwinfo external
                 (storage w))
              external (delegate m fw_src_address fwinfo external) w)
    as [[_ ->]|[line ->]]; [|intros _; apply PRINT_storage].
  unfold delegate, verify_firmware.
  destruct CONFIG_SB_VALIDATE_FW_SIGNATURE;
    [apply validate_signature_false|].
  unfold validate_hash.
  destruct (negb (bl_crypto_init =? 0)); [|destruct (negb _)];
    cbn [fst snd]; rewrite PRINT_storage; intros; reflexivity.
Qed.

(** X11. [validate_firmware] writes to the storage only by invalidating
    keys on acceptance: a rejection leaves the storage as it was, an
    acceptance in hash mode too, and an acceptance in signature mode
    leaves it with exactly the key slots below the verifying slot
    invalidated. *)
Theorem validate_firmware_storage (w : world S) :
  (fst (result w) = false -> storage (snd (result w)) = storage w)
  /\ (fst (result w) = true ->
      if CONFIG_SB_VALIDATE_FW_SIGNATURE
      then exists k,
             verified_at m fw_src_address size found external
               (storage w) k
             /\ storage (snd (result w)) = invalidate_below k (storage w)
      else storage (snd (result w)) = storage w).
Proof.
  rewrite validate_firmware_run_checks.
  destruct (run_checks_cases
              (checks m fw_dst_address fw_src_address fwinfo external
                 (storage w))
              external (delegate m fw_src_address fwinfo external) w)
    as [[_ ->]|[line ->]].
  - unfold delegate, verify_firmware.
    destruct CONFIG_SB_VALIDATE_FW_SIGNATURE.
    + split; [apply validate_signature_false|].
      intros Htrue.
      destruct (proj1 (validate_signature_true m fw_src_address size found
                         external w) Htrue) as (Hinit & k & Hk).
      exists k. split; [exact Hk|].
      apply validate_signature_verified; assumption.
    + unfold validate_hash.
      destruct (negb (bl_crypto_init =? 0));
        [|destruct (negb _)]; cbn [fst snd]; rewrite PRINT_storage;
        split; intros; solve [reflexivity|discriminate].
  - cbn [fst snd]. rewrite PRINT_storage.
    split; [reflexivity|discriminate].
Qed.

(** X12. What an accepted image is known to satisfy, for a source address
    that is a 32-bit value: it is built for the destination, a local call
    validates in place, the version is not below the stored one, the size
    fits both slots and is not zero, the signed region and the region at
    the destination do not wrap, the firmware info lies inside the signed
    region with its [total_size] bytes, the vector table and the reset
    handler lie in the region at the destination, and a validation info
    bound to the same address was found at most four bytes, modulo
    [2^32], after the end of the signed region. *)
Theorem accepted_image_geometry (w : world S) :
  0 <= fw_src_address < 2 ^ 32 ->
  fst (result w) = true ->
  fwinfo <> 0
  /\ fwinfo_address m fwinfo = fw_dst_address
  /\ (external = false -> fw_src_address = fw_dst_address)
  /\ fst (get_monotonic_version (storage w)) <= fwinfo_version m fwinfo
  /\ 0 < size <= PM_S0_SIZE /\ size <= PM_S1_SIZE
  /\ fw_src_address + size < 2 ^ 32
  /\ fw_dst_address + size < 2 ^ 32
  /\ fw_src_address <= fwinfo
  /\ fwinfo + fwinfo_total_size m fwinfo < fw_src_address + size
  /\ fw_dst_address <= fwinfo_boot_address m fwinfo < fw_dst_address + size
  /\ fw_dst_address <= load32 m (fwinfo_boot_address m fwinfo + 4)
     < fw_dst_address + size
  /\ found <> 0
  /\ (exists k, 0 <= k <= 4 /\ found = u32 (fw_src_address + size + k))
  /\ has_validation_magic m found
  /\ load32 m (found + offsetof_vinfo_address) = fw_dst_address.
Proof.
  intros Hsrc Htrue. rewrite validate_firmware_run_checks in Htrue.
  apply run_checks_true in Htrue. destruct Htrue as [Hall _].
  unfold checks, checks_before_rollback, rollback_check,
    checks_after_rollback in Hall. cbv zeta in Hall. cbn [app] in Hall.
  repeat match goal with
    | H : Forall passes (_ :: _) |- _ =>
        apply Forall_cons_iff in H; let Hc := fresh "Hc" in
        destruct H as [Hc H]; unfold passes in Hc; cbn [fst] in Hc
    end.
  clear Hall.
  apply negb_true_iff, Z.eqb_neq in Hc.
  apply negb_true_iff, Z.eqb_neq in Hc0.
  apply Z.eqb_eq in Hc1. apply Z.eqb_eq in Hc3. apply Z.eqb_eq in Hc4.
  apply Z.leb_le in Hc5.
  apply andb_true_iff in Hc6. destruct Hc6 as [Hc6 Htotal].
  apply andb_true_iff in Hc6. destruct Hc6 as [Hs0 Hs1].
  apply Z.leb_le in Hs0. apply Z.leb_le in Hs1. apply Z.leb_le in Htotal.
  apply region_within_true in Hc7.
  destruct Hc7 as (Hinner & Hin1 & Hin2).
  apply within_true in Hin1. apply within_true in Hin2.
  apply within_true in Hc8. apply within_true in Hc9.
  apply negb_true_iff, Z.eqb_neq in Hc10. apply Z.eqb_eq in Hc11.
  pose proof (load32_range m (fwinfo + offsetof_size)) as Hsize.
  pose proof (load32_range m (fwinfo + offsetof_total_size)) as Htot.
  pose proof (load32_range m (fwinfo + offsetof_address)) as Haddr.
  fold (fwinfo_size m fwinfo) in Hsize.
  fold (fwinfo_total_size m fwinfo) in Htot.
  fold (fwinfo_address m fwinfo) in Haddr.
  assert (Hwrap : forall a b,
            0 <= a < 2 ^ 32 -> 0 <= b < 2 ^ 32 -> a < u32 (a + b) ->
            u32 (a + b) = a + b).
  { intros a b Ha Hb Hlt. unfold u32 in *.
    destruct (Z.lt_ge_cases (a + b) (2 ^ 32)) as [|Hge];
      [apply Z.mod_small; lia|exfalso].
    assert ((a + b) mod 2 ^ 32 = a + b - 2 ^ 32)
      by (symmetry; apply Z.mod_unique_pos with (q := 1); lia).
    lia. }
  assert (Hend : u32 (fw_src_address + size) = fw_src_address + size)
    by (apply Hwrap; lia).
  assert (Hdend : u32 (fw_dst_address + size) = fw_dst_address + size)
    by (apply Hwrap; lia).
  assert (Hu32 : forall x, 0 <= u32 x < 2 ^ 32)
    by (intros x; apply Z.mod_pos_bound; lia).
  pose proof (Hu32 (fw_src_address + size)) as Hsrc_end.
  pose proof (Hu32 (fw_dst_address + size)) as Hdst_end.
  rewrite Hend in Hin1, Hin2, Hsrc_end.
  rewrite Hdend in Hc8, Hc9, Hdst_end.
  assert (Hiend : u32 (fwinfo + fwinfo_total_size m fwinfo)
                  = fwinfo + fwinfo_total_size m fwinfo).
  { destruct (Z.eq_dec (fwinfo_total_size m fwinfo) 0) as [E|E].
    - rewrite E, Z.add_0_r. unfold u32. apply Z.mod_small. lia.
    - unfold u32 in *.
      destruct (Z.lt_ge_cases (fwinfo + fwinfo_total_size m fwinfo)
                  (2 ^ 32)) as [|Hge]; [apply Z.mod_small; lia|exfalso].
      assert ((fwinfo + fwinfo_total_size m fwinfo) mod 2 ^ 32
              = fwinfo + fwinfo_total_size m fwinfo - 2 ^ 32)
        by (symmetry; apply Z.mod_unique_pos with (q := 1); lia).
      lia. }
  pose proof (validation_info_scan_spec m (u32 (fw_src_address + size))
                (Datatypes.S (Z.to_nat 4)) 0) as Hscan.
  cbv zeta in Hscan. destruct Hscan as [Hfound _].
  destruct (Hfound Hc10) as (k & Hk & Hpk & Hck & _).
  apply validation_info_check_true in Hck. destruct Hck as [Hmagic _].
  assert (Hfk : found = u32 (fw_src_address + size + k)).
  { unfold validation_info_find. rewrite Hpk at 1. rewrite Hend.
    reflexivity. }
  rewrite Hiend in Hinner, Hin2.
  split; [exact Hc|]. split; [symmetry; exact Hc1|].
  split; [intros ->; cbn [orb] in Hc2; apply Z.eqb_eq in Hc2; exact Hc2|].
  split; [exact Hc5|]. split; [lia|]. split; [exact Hs1|].
  split; [lia|]. split; [lia|]. split; [lia|]. split; [lia|].
  split; [lia|]. split; [lia|]. split; [exact Hc10|].
  split; [exists k; split; [lia|exact Hfk]|].
  split; [exact Hmagic|]. rewrite Hc11. symmetry. exact Hc1.
Qed.

(** X19. An image of size zero is rejected, whatever the addresses: the
    half-open regions built from it are empty, so no vector table can lie
    in them. The storage is left as it was. *)
Theorem empty_image_rejected (w : world S) :
  size = 0 ->
  fst (result w) = false /\ storage (snd (result w)) = storage w.
Proof.
  intros Hzero.
  destruct (fst (result w)) eqn:E.
  - exfalso. rewrite validate_firmware_run_checks in E.
    apply run_checks_true in E. destruct E as [Hall _].
    unfold checks, checks_before_rollback, rollback_check,
      checks_after_rollback in Hall. cbv zeta in Hall. cbn [app] in Hall.
    repeat match goal with
      | H : Forall passes (_ :: _) |- _ =>
          apply Forall_cons_iff in H; let Hc := fresh "Hc" in
          destruct H as [Hc H]; unfold passes in Hc; cbn [fst] in Hc
      end.
    apply Z.eqb_eq in Hc1. apply within_true in Hc8.
    rewrite Hzero, Z.add_0_r in Hc8.
    pose proof (load32_range m (fwinfo + offsetof_address)) as Haddr.
    fold (fwinfo_address m fwinfo) in Haddr. rewrite <- Hc1 in Haddr.
    unfold u32 in Hc8. rewrite Z.mod_small in Hc8 by exact Haddr. lia.
  - split; [reflexivity|].
    apply rejection_keeps_storage. exact E.
Qed.

End PipelineMore.

(** ** Rollback, entry points and key rotation *)

Section Composition.

Context {S : Type} `{Cfg : bl_config} `{Crypto : bl_crypto}
  `{Storage : bl_storage S}.

(** X13. After [set_monotonic_version] has stored a version,
    [validate_firmware] rejects every image of a lower version, whatever
    else holds of the image, and leaves the storage as the write left
    it. *)
Theorem rollback_after_set {Laws : counter_storage_laws S}
    (m : memory) (fw_dst_address fw_src_address fwinfo : Z)
    (external : bool) (version slot : Z) (w : world S) :
  0 <= version <= 0x7FFF -> 0 <= slot <= 1 ->
  fst (set_monotonic_version version slot w) = 0 ->
  fwinfo_version m fwinfo < version ->
  let w' := snd (set_monotonic_version version slot w) in
  fst (validate_firmware m fw_dst_address fw_src_address fwinfo external w')
  = false
  /\ storage
       (snd (validate_firmware m fw_dst_address fw_src_address fwinfo
               external w'))
     = storage w'.
Proof.
  intros Hv Hs Hok Hlt w'. rewrite validate_firmware_run_checks.
  destruct (run_checks_failure external
              (delegate m fw_src_address fwinfo external)
              (checks m fw_dst_address fw_src_address fwinfo external
                 (storage w'))
              (rollback_check m fwinfo (storage w')) w')
    as (line & _ & ->).
  - unfold checks. apply in_or_app. right. left. reflexivity.
  - destruct (fst (rollback_check m fwinfo (storage w'))) eqn:E;
      [|reflexivity].
    apply rollback_check_le in E. subst w'.
    rewrite get_after_set in E by assumption. cbn [fst] in E. lia.
  - cbn [fst snd]. rewrite PRINT_storage. split; reflexivity.
Qed.

Lemma run_checks_agree (cs : list (bool * console_line))
    (e1 e2 : bool) (v1 v2 : world S -> bool * world S) (w : world S) :
  fst (v1 w) = fst (v2 w) ->
  storage (snd (v1 w)) = storage (snd (v2 w)) ->
  fst (run_checks cs e1 v1 w) = fst (run_checks cs e2 v2 w)
  /\ storage (snd (run_checks cs e1 v1 w))
     = storage (snd (run_checks cs e2 v2 w)).
Proof.
  intros Hf Hs. induction cs as [|[ok line] cs IH]; cbn [run_checks].
  - split; assumption.
  - destruct ok; [exact IH|]. cbn [fst snd]. rewrite !PRINT_storage.
    split; reflexivity.
Qed.

Lemma verified_at_external (m : memory)
    (fw_src_address fw_size fw_val_info : Z) (st : S) (k : Z) :
  same_root_of_trust ->
  verified_at m fw_src_address fw_size fw_val_info false st k ->
  verified_at m fw_src_address fw_size fw_val_info true st k.
Proof.
  intros Hrot [[Hk Hpre] [Hread Hv]].
  assert (Hr : forall j,
            rot_retval m fw_src_address fw_size fw_val_info true st j
            = rot_retval m fw_src_address fw_size fw_val_info false st j)
    by (intros j; apply Hrot).
  split; [split; [exact Hk|]|split; [exact Hread|rewrite Hr; exact Hv]].
  intros j Hj. destruct (Hpre j Hj) as [Hi|[Hok Hm]]; [left; exact Hi|].
  right. split; [exact Hok|rewrite Hr; exact Hm].
Qed.

Lemma verified_at_local (m : memory)
    (fw_src_address fw_size fw_val_info : Z) (st : S) (k : Z) :
  same_root_of_trust ->
  verified_at m fw_src_address fw_size fw_val_info true st k ->
  verified_at m fw_src_address fw_size fw_val_info false st k.
Proof.
  intros Hrot [[Hk Hpre] [Hread Hv]].
  assert (Hr : forall j,
            rot_retval m fw_src_address fw_size fw_val_info true st j
            = rot_retval m fw_src_address fw_size fw_val_info false st j)
    by (intros j; apply Hrot).
  split; [split; [exact Hk|]|split; [exact Hread|rewrite <- Hr; exact Hv]].
  intros j Hj. destruct (Hpre j Hj) as [Hi|[Hok Hm]]; [left; exact Hi|].
  right. split; [exact Hok|rewrite <- Hr; exact Hm].
Qed.

Lemma verify_firmware_agree (m : memory)
    (fw_src_address fw_size fw_val_info : Z) (w : world S) :
  same_root_of_trust ->
  fst (verify_firmware m fw_src_address fw_size fw_val_info false w)
  = fst (verify_firmware m fw_src_address fw_size fw_val_info true w)
  /\ storage
       (snd (verify_firmware m fw_src_address fw_size fw_val_info false w))
     = storage
         (snd (verify_firmware m fw_src_address fw_size fw_val_info true w)).
Proof.
  intros Hrot. unfold verify_firmware.
  destruct CONFIG_SB_VALIDATE_FW_SIGNATURE.
  - destruct (fst (validate_signature m fw_src_address fw_size fw_val_info
                     false w)) eqn:El.
    + destruct (proj1 (validate_signature_true m fw_src_address fw_size
                         fw_val_info false w) El) as (Hinit & k & Hk).
      pose proof (verified_at_external _ _ _ _ _ _ Hrot Hk) as Hk'.
      destruct (validate_signature_verified m fw_src_address fw_size
                  fw_val_info false w k Hinit Hk) as [_ Hs1].
      destruct (validate_signature_verified m fw_src_address fw_size
                  fw_val_info true w k Hinit Hk') as [Ht Hs2].
      rewrite Ht, Hs1, Hs2. split; reflexivity.
    + destruct (fst (validate_signature m fw_src_address fw_size
                       fw_val_info true w)) eqn:Ee.
      * exfalso.
        destruct (proj1 (validate_signature_true m fw_src_address fw_size
                           fw_val_info true w) Ee) as (Hinit & k & Hk).
        pose proof (verified_at_local _ _ _ _ _ _ Hrot Hk) as Hk'.
        destruct (validate_signature_verified m fw_src_address fw_size
                    fw_val_info false w k Hinit Hk') as [Ht _].
        congruence.
      * split; [reflexivity|].
        rewrite !validate_signature_false by assumption. reflexivity.
  - unfold validate_hash.
    destruct (negb (bl_crypto_init =? 0)); [|destruct (negb _)];
      cbn [fst snd]; rewrite !PRINT_storage; split; reflexivity.
Qed.

(** X14. For an image validated in place, the two entry points agree:
    when both entry points of the root of trust compute the same
    function, [bl_validate_firmware_local] on the firmware info found at
    the address and [bl_validate_firmware] with the address as source and
    destination give the same verdict and leave the same storage. *)
Theorem entry_points_agree (m : memory) (fw_address : Z) (w : world S) :
  same_root_of_trust ->
  fst (bl_validate_firmware_local m fw_address
         (fw_info_find m fw_address) w)
  = fst (bl_validate_firmware m fw_address fw_address w)
  /\ storage
       (snd (bl_validate_firmware_local m fw_address
               (fw_info_find m fw_address) w))
     = storage (snd (bl_validate_firmware m fw_address fw_address w)).
Proof.
  intros Hrot. unfold bl_validate_firmware_local, bl_validate_firmware.
  rewrite !validate_firmware_run_checks.
  assert (Hcs : checks m fw_address fw_address (fw_info_find m fw_address)
                  false (storage w)
                = checks m fw_address fw_address
                    (fw_info_find m fw_address) true (storage w)).
  { unfold checks, checks_before_rollback. rewrite Z.eqb_refl.
    reflexivity. }
  rewrite Hcs. apply run_checks_agree; unfold delegate;
    apply verify_firmware_agree; exact Hrot.
Qed.

End Composition.

Section KeyRotation.

Context {S : Type} `{Cfg : bl_config} `{Crypto : bl_crypto}
  `{Storage : bl_storage S}.

Lemma key_scan_all_invalidated (m : memory)
    (fw_src_address fw_size fw_val_info : Z) (external : bool)
    (count : nat) :
  forall i retval validated (w : world S),
    (forall j, i <= j < i + Z.of_nat count ->
       slot_invalidated (storage w) j) ->
    key_scan m fw_src_address fw_size fw_val_info external count i retval
      validated w
    = (match count with O => retval | _ => - EINVAL end, validated,
       PRINT_lines external
         (map (fun d => Key_invalidated (i + Z.of_nat d)) (seq 0 count)) w).
Proof.
  induction count as [|count IH]; intros i retval validated w Hall;
    [reflexivity|].
  rewrite key_scan_invalidated by (apply Hall; lia).
  rewrite IH by (intros j Hj; rewrite PRINT_storage; apply Hall; lia).
  cbn [seq map PRINT_lines fold_left]. rewrite Z.add_0_r.
  rewrite <- seq_shift, map_map. f_equal.
  - f_equal. destruct count; reflexivity.
  - unfold PRINT_lines. f_equal. apply map_ext. intros d. f_equal. lia.
Qed.

(** X15. A device on which every key slot reads as invalidated, or which
    has no key slot, validates no signature: [validate_signature] returns
    false, leaves the storage as it was, and a local call prints one
    line per invalidated slot, in order, and then the failure with
    [-EINVAL]; no slot is announced as tried. *)
Theorem all_keys_invalidated (m : memory)
    (fw_src_address fw_size fw_val_info : Z) (external : bool)
    (w : world S) :
  bl_crypto_init = 0 ->
  (forall j, 0 <= j < num_public_keys_read (storage w) ->
     slot_invalidated (storage w) j) ->
  validate_signature m fw_src_address fw_size fw_val_info external w
  = (false,
     PRINT external (Validation_failed (- EINVAL))
       (PRINT_lines external
          (map (fun d => Key_invalidated (Z.of_nat d))
             (seq 0 (Z.to_nat (num_public_keys_read (storage w))))) w)).
Proof.
  intros Hinit Hall. unfold validate_signature. rewrite Hinit.
  cbn [Z.eqb negb].
  rewrite key_scan_all_invalidated by (intros j Hj; apply Hall; lia).
  replace (match Z.to_nat (num_public_keys_read (storage w)) with
           | O => - EINVAL | _ => - EINVAL end) with (- EINVAL)
    by (destruct (Z.to_nat _); reflexivity).
  reflexivity.
Qed.

Context {Laws : key_storage_laws S}.

Lemma invalidate_below_num (k : Z) (st : S) :
  num_public_keys_read (invalidate_below k st) = num_public_keys_read st.
Proof. apply invalidate_all_num. Qed.

Lemma invalidate_below_low (k j : Z) (st : S) :
  0 <= j < k -> k <= num_public_keys_read st ->
  read_retval (invalidate_below k st) j = - EINVAL.
Proof.
  intros Hj Hk. apply invalidate_all_read; [apply in_below; exact Hj|lia].
Qed.

Lemma invalidate_below_high (k j : Z) (st : S) :
  k <= j ->
  public_key_data_read (invalidate_below k st) j
  = public_key_data_read st j.
Proof.
  intros Hj. apply invalidate_all_read_other. rewrite in_below. lia.
Qed.

Variables (m : memory) (fw_src_address fw_size fw_val_info : Z)
  (external : bool).

#[local] Abbreviation validate :=
  (validate_signature m fw_src_address fw_size fw_val_info external).
#[local] Abbreviation verified :=
  (verified_at m fw_src_address fw_size fw_val_info external).

Lemma verified_after_invalidation (st : S) (k : Z) :
  verified st k -> verified (invalidate_below k st) k.
Proof.
  intros [[Hk Hpre] [Hread Hv]].
  split; [split|split].
  - rewrite invalidate_below_num. exact Hk.
  - intros j Hj. left. apply invalidate_below_low; lia.
  - unfold read_retval. rewrite invalidate_below_high by lia. exact Hread.
  - unfold rot_retval. rewrite invalidate_below_high by lia. exact Hv.
Qed.

(** X16. A validation can be repeated: on a storage that keeps the
    contract of the key store, an image whose signature was verified at a
    slot is verified again, at the same slot, by a second
    [validate_signature] on the storage that the first one left. *)
Theorem validation_repeatable (w : world S) (k : Z) :
  bl_crypto_init = 0 ->
  verified (storage w) k ->
  let w1 := snd (validate w) in
  fst (validate w1) = true /\ verified (storage w1) k.
Proof.
  intros Hinit Hk w1.
  destruct (validate_signature_verified m fw_src_address fw_size
              fw_val_info external w k Hinit Hk) as [_ Hst].
  assert (Hk1 : verified (storage w1) k).
  { subst w1. rewrite Hst. apply verified_after_invalidation. exact Hk. }
  split; [|exact Hk1].
  apply validate_signature_true. split; [exact Hinit|]. exists k. exact Hk1.
Qed.


End KeyRotation.

(** * The bench: examples and instances of the theorems *)

Import Bench.

Lemma device_key_laws : key_storage_laws device.
Proof.
  split.
  - intros [ks n c] i Hi. cbn in *.
    unfold device_read, device_invalidate. cbn.
    destruct (Z.ltb_spec i 0); [lia|]. cbn.
    rewrite list_lookup_alter_eq.
    destruct (lookup_lt_is_Some_2 ks (Z.to_nat i)) as [k Hk]; [lia|].
    rewrite Hk. reflexivity.
  - intros [ks n c] i j Hij. cbn.
    unfold device_read, device_invalidate. cbn.
    destruct (Z.ltb_spec i 0); [reflexivity|].
    destruct (Z.ltb_spec j 0); [reflexivity|]. cbn.
    rewrite list_lookup_alter_ne by lia. reflexivity.
  - intros [ks n c] i. cbn. unfold device_invalidate. cbn.
    destruct (i <? 0); cbn; [reflexivity|].
    rewrite length_alter. reflexivity.
Qed.

Lemma device_counter_laws : counter_storage_laws device.
Proof.
  split. intros [ks n c] st' v Hv. cbn. unfold device_set_counter. cbn.
  destruct (n =? 0); [discriminate|].
  intros [= <-]. cbn. unfold u16. apply Z.mod_small. exact Hv.
Qed.

(** ** Examples *)

Example within_inside : within 5 0 10 = true.
Proof. reflexivity. Qed.

Example within_upper_bound : within 10 0 10 = false.
Proof. reflexivity. Qed.

Example within_reversed : within 5 10 0 = false.
Proof. reflexivity. Qed.

Example region_within_point : region_within 5 5 0 10 = true.
Proof. reflexivity. Qed.

Example region_within_touching_end : region_within 5 10 0 10 = false.
Proof. reflexivity. Qed.

Example find_validation_info :
  validation_info_find (image 5) 0x1400 4 = 0x1400.
Proof. vm_compute. reflexivity. Qed.

Example local_validation_accepts :
  fst (bl_validate_firmware_local (image 5) 0x1000 0x1200
         (power_on board)) = true.
Proof. vm_compute. reflexivity. Qed.

Example local_validation_console :
  console (snd (bl_validate_firmware_local (image 5) 0x1000 0x1200
                  (power_on board)))
  = [Verifying_against_key 0; Key_hash 0x11 0x22;
     Verifying_against_key 1; Key_hash 0xAA 0xBB;
     Invalidating_key 0; Signature_verified].
Proof. vm_compute. reflexivity. Qed.

Example external_validation_accepts :
  fst (bl_validate_firmware (image 5) 0x1000 0x1000
         (power_on board)) = true.
Proof. vm_compute. reflexivity. Qed.

Example older_version_rejected :
  bl_validate_firmware_local (image 3) 0x1000 0x1200
    (power_on board)
  = (false, World board [Version_too_small 3 5]).
Proof. vm_compute. reflexivity. Qed.

Example bad_slot_aborts :
  console (snd (bl_validate_firmware_local (image 5) 0x1000 0x1200
                  (power_on board_with_bad_slot)))
  = [Verifying_against_key 0; Key_hash 0x11 0x22; Key_is_FFFF;
     Validation_failed (- 113)].
Proof. vm_compute. reflexivity. Qed.

Example read_version_and_slot :
  get_monotonic_version board = (5, 0).
Proof. vm_compute. reflexivity. Qed.

Example wrapping_image_rejected :
  bl_validate_firmware_local wrapping_image 0xFFFFF000 0xFFFFF200
    (power_on board)
  = (false, World board [Info_not_in_region]).
Proof. vm_compute. reflexivity. Qed.

Example zero_slots_console :
  console (snd (set_monotonic_version 6 1 (power_on board_without_counter)))
  = [Setting_monotonic_counter 6 1; Monotonic_counter_disabled].
Proof. vm_compute. reflexivity. Qed.

(** ** The theorems on the bench *)

(** The scan of the bench board reaches its second key, which verifies the
    image. *)
Lemma board_verified_at_1 :
  verified_at (image 5) 0x1000 0x400 0x1400 false board 1.
Proof.
  split; [split|].
  - evaluate.
  - intros j Hj. assert (j = 0) by lia. subst j. right. split; evaluate.
  - split; evaluate.
Qed.

(** The scan of the board with the bad slot reaches that slot. *)
Lemma bad_slot_fault_at_1 :
  fault_at (image 5) 0x1000 0x400 0x1400 false board_with_bad_slot 1.
Proof.
  split; [split|].
  - evaluate.
  - intros j Hj. assert (j = 0) by lia. subst j. right. split; evaluate.
  - split; evaluate.
Qed.

Lemma validate_firmware_checks_witness :
  validate_firmware (image 3) 0x1000 0x1000 0x1200 false (power_on board)
  = (false, World board [Version_too_small 3 5]).
Proof.
  pose proof (validate_firmware_checks (image 3) 0x1000 0x1000 0x1200 false
                (power_on board)) as H.
  cbv zeta in H. destruct H as (_ & Hfirst & _).
  rewrite (Hfirst
             (checks_before_rollback (image 3) 0x1000 0x1000 0x1200 false)
             (rollback_check (image 3) 0x1200 board)
             (checks_after_rollback (image 3) 0x1000 0x1000 0x1200)).
  - vm_compute. reflexivity.
  - reflexivity.
  - vm_compute. repeat constructor.
  - vm_compute. reflexivity.
Defined.

Lemma validate_signature_spec_witness :
  fst (validate_signature (image 5) 0x1000 0x400 0x1400 false
         (power_on board)) = true.
Proof.
  destruct (validate_signature_spec (image 5) 0x1000 0x400 0x1400 false)
    as (_ & _ & Hiff & _).
  apply Hiff. split; [reflexivity|].
  exists 1. exact board_verified_at_1.
Defined.

Lemma key_invalidation_spec_witness :
  let after :=
    storage (snd (validate_signature (image 5) 0x1000 0x400 0x1400 false
                    (power_on board))) in
  after = invalidate_below 1 board
  /\ read_retval after 0 = - EINVAL
  /\ public_key_data_read after 1 = public_key_data_read board 1
  /\ public_key_data_read after 2 = public_key_data_read board 2.
Proof.
  destruct (key_invalidation_spec (Laws := device_key_laws)
              (image 5) 0x1000 0x400 0x1400 false (power_on board))
    as (Hk & _ & _).
  destruct (Hk 1 eq_refl board_verified_at_1) as (_ & Hst & Hlow & Hhigh).
  split; [exact Hst|]. split; [apply Hlow; lia|].
  split; apply Hhigh; lia.
Defined.

Lemma rollback_check_spec_witness :
  fst (validate_firmware (image 3) 0x1000 0x1000 0x1200 false
         (power_on board)) = false
  /\ storage (snd (validate_firmware (image 3) 0x1000 0x1000 0x1200 false
                     (power_on board))) = board.
Proof.
  pose proof (rollback_check_spec (image 3) 0x1000 0x1000 0x1200 false
                (power_on board)) as H.
  cbv zeta in H. destruct H as (Hold & _).
  destruct Hold as (Hfalse & Hst & _); [evaluate|].
  split; [exact Hfalse|exact Hst].
Defined.

Lemma monotonic_version_round_trip_witness :
  get_monotonic_version
    (storage (snd (set_monotonic_version 6 1 (power_on board))))
  = (6, 1).
Proof.
  apply (monotonic_version_round_trip 6 1 (power_on board)
           (Laws := device_counter_laws)).
  - lia.
  - lia.
  - evaluate.
Defined.

Lemma set_monotonic_version_spec_witness :
  fst (set_monotonic_version 6 1 (power_on board_without_counter))
  = fst (set_monotonic_counter 13 board_without_counter)
  /\ console (snd (set_monotonic_version 6 1 (power_on board_without_counter)))
     = [Setting_monotonic_counter 6 1; Monotonic_counter_disabled].
Proof.
  destruct (set_monotonic_version_spec 6 1 (power_on board_without_counter))
    as (Herr & _ & Hconsole & _).
  split; [exact Herr|]. apply Hconsole. evaluate.
Defined.

(** C6, as stated, fails: a device without counter slots whose write
    reports [-ENOMEM] makes [set_monotonic_version] return [-ENOMEM]. *)
Lemma set_monotonic_version_zero_slots_counterexample :
  num_monotonic_counter_slots board_without_counter = 0
  /\ fst (set_monotonic_version 6 1 (power_on board_without_counter))
     = - ENOMEM
  /\ - ENOMEM <> 0.
Proof. repeat split; discriminate. Qed.

Lemma key_read_failure_spec_witness :
  fst (validate_signature (image 5) 0x1000 0x400 0x1400 false
         (power_on board_with_bad_slot)) = false
  /\ storage (snd (validate_signature (image 5) 0x1000 0x400 0x1400 false
                     (power_on board_with_bad_slot)))
     = board_with_bad_slot.
Proof.
  destruct (key_read_failure_spec (image 5) 0x1000 0x400 0x1400 false)
    as (_ & _ & Hfault).
  exact (Hfault (power_on board_with_bad_slot) 1 bad_slot_fault_at_1).
Defined.

Lemma wrapped_image_rejected_witness :
  fst (validate_firmware wrapping_image 0xFFFFF000 0xFFFFF000 0xFFFFF200
         false (power_on board)) = false
  /\ storage (snd (validate_firmware wrapping_image 0xFFFFF000 0xFFFFF000
                     0xFFFFF200 false (power_on board))) = board.
Proof.
  apply (wrapped_image_rejected wrapping_image 0xFFFFF000 0xFFFFF000
           0xFFFFF200 false (power_on board)).
  evaluate.
Defined.

(** ** The further properties on the bench *)

Import MoreBench.

Example metadata_info_found :
  FwMetadata.firmware_info_get metadata_image 0x2000 = 0x2200.
Proof. vm_compute. reflexivity. Qed.

Example metadata_validation_info_found :
  FwMetadata.validation_info_find metadata_image 0x2200 4 = 0x2102.
Proof. vm_compute. reflexivity. Qed.

Example size_zero_console :
  bl_validate_firmware_local image_of_size_zero 0x1000 0x1200
    (power_on board)
  = (false, World board [Info_not_in_region]).
Proof. vm_compute. reflexivity. Qed.

Example revoked_board_console :
  validate_signature (image 5) 0x1000 0x400 0x1400 false
    (power_on board_revoked)
  = (false,
     World board_revoked
       [Key_invalidated 0; Key_invalidated 1; Validation_failed (- 22)]).
Proof. vm_compute. reflexivity. Qed.

Lemma toy_same_root_of_trust : same_root_of_trust.
Proof. intros m pk h sig fw len. reflexivity. Qed.

Lemma region_within_interior_witness :
  within 3 0 10 = true /\ 0 < 10.
Proof.
  apply (region_within_interior 2 5 0 10 3); [reflexivity|lia].
Defined.

Lemma get_monotonic_version_monotone_witness :
  fst (get_monotonic_version board) <= fst (get_monotonic_version board_later).
Proof.
  apply (get_monotonic_version_monotone board board_later). evaluate.
Defined.


Lemma memeq_32_bytewise_witness :
  FwMetadata.memeq_32 metadata_image 0x2102
    [0x281ee6de; 0x86518483; 0x79106303] 14
  = memcmp_eq metadata_image 0x2102
      (words_bytes [0x281ee6de; 0x86518483; 0x79106303])
  /\ FwMetadata.memeq_32 metadata_image 0x2102
       [0x281ee6de; 0x86518483; 0x79106303] 14
     = FwMetadata.memeq_32 metadata_image 0x2102
         [0x281ee6de; 0x86518483; 0x79106303] 12.
Proof.
  apply (memeq_32_bytewise metadata_image 0x2102 14
           [0x281ee6de; 0x86518483; 0x79106303]).
  - repeat constructor; evaluate.
  - evaluate.
Defined.

Lemma firmware_info_get_spec_witness :
  FwMetadata.firmware_info_get metadata_image 0x2000 = 0x2200.
Proof.
  pose proof (firmware_info_get_spec metadata_image 0x2000) as H.
  cbv zeta in H. destruct H as (Hmagic & _ & _).
  - repeat constructor; evaluate.
  - evaluate.
  - apply Hmagic. evaluate.
Defined.

Lemma validation_info_find_agree_witness :
  FwMetadata.validation_info_find metadata_image 0x2200 4
  = validation_info_find metadata_image 0x2100 4.
Proof.
  apply (validation_info_find_agree (Cfg := bench_config)
           (Sb := bench_sb_config) eq_refl eq_refl eq_refl
           ltac:(repeat constructor; evaluate) metadata_image 0x2200 4).
  - lia.
  - intros j Hj.
    change (u32 (FwMetadata.firmware_address metadata_image 0x2200
                 + FwMetadata.firmware_size metadata_image 0x2200))
      with 0x2100.
    unfold u32. rewrite Z.mod_small; lia.
Defined.

Lemma external_validation_silent_witness :
  bl_validate_firmware blank 0x1000 0x1000 (power_on board)
  = (false, power_on board).
Proof.
  destruct (external_validation_silent blank 0x1000 0x1000
              (power_on board)) as [_ H].
  apply H. evaluate.
Defined.


Lemma accepted_image_geometry_witness :
  0x1000 + fwinfo_size (image 5) 0x1200 < 2 ^ 32
  /\ 0x1200 + fwinfo_total_size (image 5) 0x1200
     < 0x1000 + fwinfo_size (image 5) 0x1200.
Proof.
  destruct (accepted_image_geometry (image 5) 0x1000 0x1000 0x1200 false
              (power_on board))
    as (_ & _ & _ & _ & _ & _ & Hsrc & _ & _ & Hinfo & _).
  - lia.
  - evaluate.
  - split; [exact Hsrc|exact Hinfo].
Defined.

Lemma empty_image_rejected_witness :
  fst (validate_firmware image_of_size_zero 0x1000 0x1000 0x1200 false
         (power_on board)) = false
  /\ storage (snd (validate_firmware image_of_size_zero 0x1000 0x1000
                     0x1200 false (power_on board))) = board.
Proof.
  apply (empty_image_rejected image_of_size_zero 0x1000 0x1000 0x1200 false
           (power_on board)).
  evaluate.
Defined.

Lemma rollback_after_set_witness :
  fst (validate_firmware (image 5) 0x1000 0x1000 0x1200 false
         (snd (set_monotonic_version 6 1 (power_on board)))) = false
  /\ storage
       (snd (validate_firmware (image 5) 0x1000 0x1000 0x1200 false
               (snd (set_monotonic_version 6 1 (power_on board)))))
     = storage (snd (set_monotonic_version 6 1 (power_on board))).
Proof.
  apply (rollback_after_set (Laws := device_counter_laws)
           (image 5) 0x1000 0x1000 0x1200 false 6 1 (power_on board)).
  - lia.
  - lia.
  - evaluate.
  - evaluate.
Defined.

Lemma entry_points_agree_witness :
  fst (bl_validate_firmware_local (image 5) 0x1000
         (fw_info_find (image 5) 0x1000) (power_on board))
  = fst (bl_validate_firmware (image 5) 0x1000 0x1000 (power_on board))
  /\ storage
       (snd (bl_validate_firmware_local (image 5) 0x1000
               (fw_info_find (image 5) 0x1000) (power_on board)))
     = storage
         (snd (bl_validate_firmware (image 5) 0x1000 0x1000
                 (power_on board))).
Proof.
  apply (entry_points_agree (image 5) 0x1000 (power_on board)).
  exact toy_same_root_of_trust.
Defined.

Lemma all_keys_invalidated_witness :
  validate_signature (image 5) 0x1000 0x400 0x1400 false
    (power_on board_revoked)
  = (false,
     PRINT false (Validation_failed (- EINVAL))
       (PRINT_lines false [Key_invalidated 0; Key_invalidated 1]
          (power_on board_revoked))).
Proof.
  rewrite (all_keys_invalidated (image 5) 0x1000 0x400 0x1400 false
             (power_on board_revoked)).
  - reflexivity.
  - reflexivity.
  - intros j Hj. change (num_public_keys_read (storage (power_on
      board_revoked))) with 2 in Hj.
    assert (Hcase : j = 0 \/ j = 1) by lia.
    destruct Hcase as [->| ->]; evaluate.
Defined.

Lemma validation_repeatable_witness :
  let w1 :=
    snd (validate_signature (image 5) 0x1000 0x400 0x1400 false
           (power_on board)) in
  fst (validate_signature (image 5) 0x1000 0x400 0x1400 false w1) = true
  /\ verified_at (image 5) 0x1000 0x400 0x1400 false (storage w1) 1.
Proof.
  apply (validation_repeatable (Laws := device_key_laws)
           (image 5) 0x1000 0x400 0x1400 false (power_on board) 1).
  - reflexivity.
  - exact board_verified_at_1.
Defined.


Lemma validate_hash_spec_witness :
  fst (validate_hash (image 5) 0x1000 0x400 0x1400 false (power_on board))
  = false
  /\ storage
       (snd (validate_hash (image 5) 0x1000 0x400 0x1400 false
               (power_on board)))
     = board.
Proof.
  pose proof (validate_hash_spec (image 5) 0x1000 0x400 0x1400 false
                (power_on board)) as H.
  cbv zeta in H. destruct H as (Hiff & Hst & _).
  split; [|exact Hst].
  destruct (fst (validate_hash (image 5) 0x1000 0x400 0x1400 false
                   (power_on board))) eqn:E; [|reflexivity].
  destruct (proj1 Hiff eq_refl) as [_ Hsha]. vm_compute in Hsha.
  discriminate Hsha.
Defined.

Lemma validate_firmware_storage_witness :
  exists k,
    verified_at (image 5) 0x1000 (fwinfo_size (image 5) 0x1200)
      (validation_info_find (image 5)
         (u32 (0x1000 + fwinfo_size (image 5) 0x1200)) 4)
      false board k
    /\ storage
         (snd (validate_firmware (image 5) 0x1000 0x1000 0x1200 false
                 (power_on board)))
       = invalidate_below k board.
Proof.
  destruct (validate_firmware_storage (image 5) 0x1000 0x1000 0x1200 false
              (power_on board)) as [_ H].
  apply H. evaluate.
Defined.
